(** * Localshare: the local-network discovery subsystem

    A shallow embedding of [discovery.h] in its two revisions:

    - [Discovery]: the revision built around [DnsPeer] / [LocalDnsPeer] /
      [ServiceRecord] / [Resolver] / [Browser], where peers are QObject
      children of the Browser;
    - [Legacy]: the earlier revision ([src/discovery.h]) where the Resolver
      runs a secondary [QHostInfo] lookup and the Browser keeps a
      [QSet<QString>] of discovered names.

    Qt objects are records, slots and callbacks are functions in explicit
    state passing style, emitted signals and log lines are collected in a
    trace, and [qFatal] is a distinguished outcome. *)

From Stdlib Require Import ZArith Lia Bool Ascii String List.
From stdpp Require Import base option list strings pretty gmap.
Import ListNotations.

Local Open Scope string_scope.
Local Open Scope list_scope.
Local Open Scope Z_scope.

(** ** The part of Qt the code relies on *)

Module Qt.

(** A [QString]; the null and the empty [QString] compare equal and both
    answer [isEmpty], so one value stands for both. *)
Abbreviation QString := string (only parsing).

Definition isEmpty (s : QString) : bool :=
  match s with
  | EmptyString => true
  | String _ _ => false
  end.

(** [QString::split (sep, Qt::KeepEmptyParts)] for a one character
    separator: the fields between the separators, empty ones included. *)
Fixpoint split (sep : ascii) (s : QString) : list QString :=
  match s with
  | EmptyString => [EmptyString]
  | String c s' =>
      if Ascii.eqb c sep then EmptyString :: split sep s'
      else match split sep s' with
           | f :: fs => String c f :: fs
           | [] => [String c EmptyString]
           end
  end.

(** The loop at the end of [QString::section] with the default flags: [x]
    counts the fields seen and [i] indexes [sections]; no field is
    skipped, so both advance together. *)
Fixpoint section_loop (sep : ascii) (start end_ : Z) (x i : Z)
         (sections : list QString) (ret : QString) : QString :=
  match sections with
  | [] => ret
  | sec :: rest =>
      if x <=? end_ then
        let ret :=
          if x >=? start then
            (if (x >? start) && (i >? 0) then ret +:+ String sep EmptyString
             else ret) +:+ sec
          else ret in
        section_loop sep start end_ (x + 1) (i + 1) rest ret
      else ret
  end.

(** [QString::section (sep, start, end)] with [SectionDefault]: negative
    indices count fields from the right; the fields [start..end] are
    returned joined by the separator. The indices are C [int]s; they stay
    far from the 32-bit limits for any string that fits in memory, so they
    are integers here. *)
Definition section (s : QString) (sep : ascii) (start end_ : Z) : QString :=
  let sections := split sep s in
  let sectionsSize := Z.of_nat (length sections) in
  let start := if start <? 0 then start + sectionsSize else start in
  let end_ := if end_ <? 0 then end_ + sectionsSize else end_ in
  if (start >=? sectionsSize) || (end_ <? 0) || (start >? end_)
  then EmptyString
  else section_loop sep start end_ 0 0 sections EmptyString.

(** What the loop appends after the first field: each further field behind
    a separator. *)
Fixpoint behind (sep : ascii) (fields : list QString) : QString :=
  match fields with
  | [] => EmptyString
  | f :: rest => String sep f +:+ behind sep rest
  end.

(** [QString (pattern).arg (a1, a2)]: the place markers [%1] and [%2] are
    replaced in one pass, so the arguments themselves are never rescanned.
    (Markers are one digit long here; the only pattern of the program is
    ["%1@%2"].) *)
Fixpoint arg2 (pattern a1 a2 : QString) : QString :=
  match pattern with
  | EmptyString => EmptyString
  | String c rest =>
      match rest with
      | String d rest' =>
          if Ascii.eqb c "%" && Ascii.eqb d "1" then a1 +:+ arg2 rest' a1 a2
          else if Ascii.eqb c "%" && Ascii.eqb d "2" then a2 +:+ arg2 rest' a1 a2
          else String c (arg2 rest a1 a2)
      | EmptyString => String c EmptyString
      end
  end.

(** [QString (pattern).arg (a)] for a pattern whose only marker is [%1]. *)
Definition arg (pattern a : QString) : QString := arg2 pattern a EmptyString.

(** [QString::contains (QChar)]. *)
Fixpoint contains (c : ascii) (s : QString) : bool :=
  match s with
  | EmptyString => false
  | String d s' => Ascii.eqb d c || contains c s'
  end.

(** [QtMsgType], for the lines written with [qDebug], [qWarning] and
    [qCritical]. *)
Inductive QtMsgType := QtDebugMsg | QtWarningMsg | QtCriticalMsg | QtFatalMsg.

End Qt.

Import Qt.

(** ** The revision with [DnsPeer] objects *)

Module Discovery.

(** The address of a [QObject]; it identifies the sender of a signal and
    the peer handed over by [added]. *)
Definition ObjId := nat.

(** [DNSServiceErrorType] and the constants of [dns_sd.h] the code names. *)
Definition Error := Z.
Definition kDNSServiceErr_NoError : Error := 0.
Definition kDNSServiceErr_Unknown : Error := -65537.
Definition kDNSServiceErr_NoSuchName : Error := -65538.
Definition kDNSServiceErr_NoMemory : Error := -65539.
Definition kDNSServiceErr_BadParam : Error := -65540.
Definition kDNSServiceErr_BadReference : Error := -65541.
Definition kDNSServiceErr_BadState : Error := -65542.
Definition kDNSServiceErr_BadFlags : Error := -65543.
Definition kDNSServiceErr_Unsupported : Error := -65544.
Definition kDNSServiceErr_NotInitialized : Error := -65545.
Definition kDNSServiceErr_AlreadyRegistered : Error := -65547.
Definition kDNSServiceErr_NameConflict : Error := -65548.
Definition kDNSServiceErr_Invalid : Error := -65549.
Definition kDNSServiceErr_Firewall : Error := -65550.
Definition kDNSServiceErr_Incompatible : Error := -65551.
Definition kDNSServiceErr_BadInterfaceIndex : Error := -65552.
Definition kDNSServiceErr_Refused : Error := -65553.
Definition kDNSServiceErr_NoSuchRecord : Error := -65554.
Definition kDNSServiceErr_NoAuth : Error := -65555.
Definition kDNSServiceErr_NoSuchKey : Error := -65556.
Definition kDNSServiceErr_NATTraversal : Error := -65557.
Definition kDNSServiceErr_DoubleNAT : Error := -65558.
Definition kDNSServiceErr_BadTime : Error := -65559.

(** [DNSServiceFlags] bit set on a browse result that announces a peer. *)
Definition kDNSServiceFlagsAdd : Z := 2.

(** *** Service name vs username *)

Definition username_of (service_name : QString) : QString :=
  let s := section service_name "@" 0 (-2) in
  if negb (isEmpty s) then s
  else service_name.

Definition service_name_of (username suffix : QString) : QString :=
  arg2 "%1@%2" username suffix.

(** Modelled from the spec: the source has no function that extracts the
    suffix; the spec names it [suffix_of] and describes it as the part of
    the service name after the last ['@']. *)
Definition suffix_of (service_name : QString) : QString :=
  List.last (split "@" service_name) EmptyString.

(** *** Signals, log lines and outcomes *)

Inductive Effect :=
| DnsPeer_hostname_changed (sender : ObjId)
| DnsPeer_port_changed (sender : ObjId)
| LocalDnsPeer_requested_service_name_changed
| LocalDnsPeer_username_changed
| LocalDnsPeer_service_name_changed
| DnsSocket_being_destroyed (sender : ObjId) (error : QString)
| Resolver_peer_resolved (sender : ObjId) (peer : ObjId)
| Browser_added (peer : ObjId)
| Message (type : QtMsgType) (text : QString) (arg : QString).

(** A call either returns, with the signals emitted and lines logged on the
    way, or runs into [qFatal], which logs and aborts the process. *)
Inductive Outcome (A : Type) :=
| Returns (a : A) (trace : list Effect)
| Aborts (trace : list Effect).
Arguments Returns {A} a trace.
Arguments Aborts {A} trace.

Definition is_added (e : Effect) : bool :=
  match e with
  | Browser_added _ => true
  | _ => false
  end.

(** Number of [added] signals in a trace. *)
Definition count_added (trace : list Effect) : nat :=
  length (List.filter is_added trace).

(** The peers handed over by the [added] signals of a trace, in order. *)
Fixpoint added_peers (trace : list Effect) : list ObjId :=
  match trace with
  | [] => []
  | Browser_added peer :: rest => peer :: added_peers rest
  | _ :: rest => added_peers rest
  end.

(** *** DnsPeer *)

Module DnsPeer.

(** [port] is a [quint16] in host byte order; [deleteLater] records a
    posted deferred deletion. *)
Record t := mk {
  this : ObjId;
  service_name : QString;
  hostname : QString;
  port : Z;
  deleteLater : bool
}.

(** [DnsPeer (service_name, parent)]: the hostname starts empty and the
    port is not initialised, it holds whatever the memory held. *)
Definition new (this : ObjId) (service_name : QString) (uninitialised : Z) : t :=
  mk this service_name EmptyString uninitialised false.

Definition get_service_name (p : t) : QString := service_name p.
Definition get_username (p : t) : QString := username_of (service_name p).
Definition get_hostname (p : t) : QString := hostname p.
Definition get_port (p : t) : Z := port p.

Definition set_hostname (new_hostname : QString) (p : t) : t * list Effect :=
  if negb (String.eqb (hostname p) new_hostname) then
    (mk (this p) (service_name p) new_hostname (port p) (deleteLater p),
     [DnsPeer_hostname_changed (this p)])
  else (p, []).

Definition set_port (new_port : Z) (p : t) : t * list Effect :=
  if negb (Z.eqb (port p) new_port) then
    (mk (this p) (service_name p) (hostname p) new_port (deleteLater p),
     [DnsPeer_port_changed (this p)])
  else (p, []).

Definition do_deleteLater (p : t) : t :=
  mk (this p) (service_name p) (hostname p) (port p) true.

End DnsPeer.

(** *** LocalDnsPeer *)

Module LocalDnsPeer.

(** Modelled from the spec: [requested_username] is a [Settings::Username]
    and [settings.h] is not among the sources; it is the string chosen by
    the user, mutable, kept in the settings, and [get] hands back what [set]
    stored. *)
Record t := mk {
  suffix : QString;
  requested_username : QString;
  service_name : QString;
  port : Z
}.

Definition get_requested_username (lp : t) : QString := requested_username lp.

Definition get_requested_service_name (lp : t) : QString :=
  service_name_of (get_requested_username lp) (suffix lp).

Definition set_requested_username (new_username : QString) (lp : t) : t * list Effect :=
  if negb (String.eqb (get_requested_username lp) new_username) then
    (mk (suffix lp) new_username (service_name lp) (port lp),
     [LocalDnsPeer_requested_service_name_changed])
  else (lp, []).

Definition get_service_name (lp : t) : QString := service_name lp.
Definition get_username (lp : t) : QString := username_of (service_name lp).

(** The slots connected to [service_name_changed] run inside the [emit],
    that is after the assignment; [System.set_service_name] below routes
    the signal to the Browser with the state returned here. *)
Definition set_service_name (new_service_name : QString) (lp : t) : t * list Effect :=
  let old_username := get_username lp in
  let '(lp, changed) :=
    if negb (String.eqb (service_name lp) new_service_name) then
      (mk (suffix lp) (requested_username lp) new_service_name (port lp),
       [LocalDnsPeer_service_name_changed])
    else (lp, []) in
  if negb (String.eqb old_username (get_username lp)) then
    (lp, changed ++ [LocalDnsPeer_username_changed])
  else (lp, changed).

Definition get_port (lp : t) : Z := port lp.

End LocalDnsPeer.

(** *** DnsSocket *)

Module DnsSocket.

(** The [DNSServiceRef] itself is opaque; what the class keeps besides it
    is the error message and, as any QObject, a posted deferred
    deletion. *)
Record t := mk {
  this : ObjId;
  error_msg : QString;
  deleteLater : bool
}.

Definition new (this : ObjId) : t := mk this EmptyString false.

Definition has_error (e : Error) : bool := negb (e =? kDNSServiceErr_NoError).

(** [tr] is taken to hand the source text back (no translation
    installed). *)
Definition make_error_string (e : Error) : QString :=
  if e =? kDNSServiceErr_NoError then "No error"
  else if e =? kDNSServiceErr_Unknown then "Unknown error"
  else if e =? kDNSServiceErr_NoSuchName then "Internal error: No such name"
  else if e =? kDNSServiceErr_NoMemory then "Out of memory"
  else if e =? kDNSServiceErr_BadParam then "API error: Bad parameter"
  else if e =? kDNSServiceErr_BadReference then "API error: Bad DNSServiceRef"
  else if e =? kDNSServiceErr_BadState then "Internal error: Bad state"
  else if e =? kDNSServiceErr_BadFlags then "API error: Bad flags"
  else if e =? kDNSServiceErr_Unsupported then "Unsupported operation"
  else if e =? kDNSServiceErr_NotInitialized then "API error: DNSServiceRef is not initialized"
  else if e =? kDNSServiceErr_AlreadyRegistered then "Service is already registered"
  else if e =? kDNSServiceErr_NameConflict then "Service name is already taken"
  else if e =? kDNSServiceErr_Invalid then "API error: Invalid data"
  else if e =? kDNSServiceErr_Firewall then "Firewall"
  else if e =? kDNSServiceErr_Incompatible then "Localshare incompatible with local Zeroconf service"
  else if e =? kDNSServiceErr_BadInterfaceIndex then "API error: Bad interface index"
  else if e =? kDNSServiceErr_Refused then "kDNSServiceErr_Refused"
  else if e =? kDNSServiceErr_NoSuchRecord then "kDNSServiceErr_NoSuchRecord"
  else if e =? kDNSServiceErr_NoAuth then "kDNSServiceErr_NoAuth"
  else if e =? kDNSServiceErr_NoSuchKey then "The key does not exist in the TXT record"
  else if e =? kDNSServiceErr_NATTraversal then "kDNSServiceErr_NATTraversal"
  else if e =? kDNSServiceErr_DoubleNAT then "kDNSServiceErr_DoubleNAT"
  else if e =? kDNSServiceErr_BadTime then "kDNSServiceErr_BadTime"
  else if e =? -65563 then "Zeroconf service in not running"
  else arg "Unknown error code: %1" (pretty e).

(** [failure]; the virtual [make_error_string] of the subclass is passed
    in. [Q_ASSERT] is compiled out of release builds and is left out. *)
Definition failure (make_error_string : Error -> QString) (e : Error) (s : t) : t :=
  mk (this s) (make_error_string e) true.

(** [init_with]: [err] is what the query function returned and [fd] what
    [DNSServiceRefSockFD] returned for the new reference. *)
Definition init_with (make_error_string : Error -> QString)
           (err : Error) (fd : Z) (s : t) : Outcome t :=
  if has_error err then Returns (failure make_error_string err s) []
  else if negb (fd =? -1) then Returns s []
  else Aborts [Message QtFatalMsg "DNSServiceRefSockFD failed" EmptyString].

(** [has_pending_data], once the callbacks of this round have run: [err]
    is what [DNSServiceProcessResult] returned. *)
Definition has_pending_data (make_error_string : Error -> QString)
           (err : Error) (s : t) : t :=
  if has_error err then failure make_error_string err s else s.

(** [~DnsSocket]. *)
Definition destructor (s : t) : list Effect :=
  [DnsSocket_being_destroyed (this s) (error_msg s)].

End DnsSocket.

(** *** ServiceRecord *)

Module ServiceRecord.

Definition t := DnsSocket.t.

Definition make_error_string (e : Error) : QString :=
  arg "Service registration failed: %1" (DnsSocket.make_error_string e).

(** The constructor; it answers the record and the name it asked the
    facility to register. *)
Definition new (this : ObjId) (local_peer : LocalDnsPeer.t) (err : Error) (fd : Z)
  : Outcome t * QString :=
  let name := LocalDnsPeer.get_requested_service_name local_peer in
  (match DnsSocket.init_with make_error_string err fd (DnsSocket.new this) with
   | Returns c trace =>
       Returns c (Message QtDebugMsg "ServiceRecord: registering" name :: trace)
   | Aborts trace =>
       Aborts (Message QtDebugMsg "ServiceRecord: registering" name :: trace)
   end, name).

(** [register_callback]: [service_name] is the name the facility reports
    as registered. *)
Definition register_callback (error_code : Error) (service_name : QString)
           (c : t) (local_peer : LocalDnsPeer.t) : t * LocalDnsPeer.t * list Effect :=
  if DnsSocket.has_error error_code then
    (DnsSocket.failure make_error_string error_code c, local_peer, [])
  else
    let '(lp, trace) := LocalDnsPeer.set_service_name service_name local_peer in
    (c, lp, Message QtDebugMsg "ServiceRecord: registered" service_name :: trace).

(** [~ServiceRecord], followed by the base class destructor. *)
Definition destructor (c : t) (local_peer : LocalDnsPeer.t) : LocalDnsPeer.t * list Effect :=
  let '(lp, trace) := LocalDnsPeer.set_service_name EmptyString local_peer in
  (lp, Message QtDebugMsg "ServiceRecord: shutting down" EmptyString
         :: trace ++ DnsSocket.destructor c).

End ServiceRecord.

(** *** Resolver *)

Module Resolver.

Record t := mk {
  socket : DnsSocket.t;
  peer : DnsPeer.t
}.

Definition this (c : t) : ObjId := DnsSocket.this (socket c).

Definition make_error_string (e : Error) : QString :=
  arg "Service resolver failed: %1" (DnsSocket.make_error_string e).

Definition failure (e : Error) (c : t) : t :=
  mk (DnsSocket.failure make_error_string e (socket c)) (peer c).

Definition do_deleteLater (c : t) : t :=
  mk (DnsSocket.mk (this c) (DnsSocket.error_msg (socket c)) true) (peer c).

(** What the environment decides when a Resolver is built: the addresses
    [new] returns for the Resolver and for its DnsPeer, the content of
    the uninitialised port, the answer of [DNSServiceResolve] and the
    descriptor of the new reference. *)
Record Env := mkEnv {
  resolver_addr : ObjId;
  peer_addr : ObjId;
  uninitialised_port : Z;
  query_err : Error;
  sock_fd : Z
}.

Definition new (env : Env) (service_name : QString) : Outcome t :=
  let peer := DnsPeer.new (peer_addr env) service_name (uninitialised_port env) in
  match DnsSocket.init_with make_error_string (query_err env) (sock_fd env)
                            (DnsSocket.new (resolver_addr env)) with
  | Returns s trace => Returns (mk s peer) trace
  | Aborts trace => Aborts trace
  end.

(** A [uint16_t] in network byte order, as its two bytes lie in memory. *)
Definition uint16_be := (Z * Z)%type.

Definition qFromBigEndian (port : uint16_be) : Z :=
  Z.lor (Z.shiftl (Z.land (fst port) 255) 8) (Z.land (snd port) 255).

(** [qToBigEndian] of a [quint16]: the high byte comes first. *)
Definition qToBigEndian (port : Z) : uint16_be :=
  (Z.land (Z.shiftr port 8) 255, Z.land port 255).

(** [resolver_callback], up to the point where the slots connected to
    [peer_resolved] run; [Browser.on_resolver_callback] continues with
    the Browser's slot. *)
Definition resolver_callback (error_code : Error) (hostname : QString)
           (port : uint16_be) (c : t) : t * list Effect :=
  if DnsSocket.has_error error_code then (failure error_code c, [])
  else
    let '(p, port_trace) := DnsPeer.set_port (qFromBigEndian port) (peer c) in
    let '(p, hostname_trace) := DnsPeer.set_hostname hostname p in
    (do_deleteLater (mk (socket c) p),
     port_trace ++ hostname_trace ++ [Resolver_peer_resolved (this c) (DnsPeer.this p)]).

End Resolver.

(** *** Browser *)

Module Browser.

(** The children of the Browser: its DnsPeers in the order of
    [children ()] (a peer taken over with [setParent] goes last), and its
    Resolvers by address. The local peer is the parent; the slots that
    read it take its current state as an argument. *)
Record t := mk {
  socket : DnsSocket.t;
  dns_peers : list DnsPeer.t;
  resolvers : gmap ObjId Resolver.t
}.

Definition this (c : t) : ObjId := DnsSocket.this (socket c).

Definition make_error_string (e : Error) : QString :=
  arg "Service browser failed: %1" (DnsSocket.make_error_string e).

Definition failure (e : Error) (c : t) : t :=
  mk (DnsSocket.failure make_error_string e (socket c)) (dns_peers c) (resolvers c).

(** The constructor: no child yet. *)
Definition new (this : ObjId) (err : Error) (fd : Z) : Outcome t :=
  match DnsSocket.init_with make_error_string err fd (DnsSocket.new this) with
  | Returns s trace =>
      Returns (mk s [] ∅) (Message QtDebugMsg "Browser: started" EmptyString :: trace)
  | Aborts trace =>
      Aborts (Message QtDebugMsg "Browser: started" EmptyString :: trace)
  end.

(** The loop of [find_peer_by_service_name] over the children; the
    pointer it returns is the position of the child, given here together
    with the child it points to. *)
Fixpoint find_from (i : nat) (children : list DnsPeer.t) (service_name : QString)
  : option (nat * DnsPeer.t) :=
  match children with
  | [] => None
  | dns_peer :: rest =>
      if String.eqb (DnsPeer.get_service_name dns_peer) service_name
      then Some (i, dns_peer)
      else find_from (S i) rest service_name
  end.

Definition find_peer_by_service_name (c : t) (service_name : QString)
  : option (nat * DnsPeer.t) :=
  find_from 0%nat (dns_peers c) service_name.

(** [p->deleteLater ()] on the child [p] at position [i]. *)
Definition peer_deleteLater (i : nat) (p : DnsPeer.t) (c : t) : t :=
  mk (socket c) (<[i := DnsPeer.do_deleteLater p]> (dns_peers c)) (resolvers c).

(** The removal branch of [browser_callback]. *)
Definition peer_removed (service_name : QString) (c : t) : t :=
  match find_peer_by_service_name c service_name with
  | Some (i, p) => peer_deleteLater i p c
  | None => c
  end.

(** [browser_callback]; [env] is consulted when a Resolver is built. The
    Resolver's signals are connected to [peer_resolved] and to the
    closure that reports a failed Resolver, see [on_resolver_callback]
    and [deferred_delete]. *)
Definition browser_callback (env : Resolver.Env) (flags : Z) (error_code : Error)
           (service_name : QString) (c : t) : Outcome t :=
  if DnsSocket.has_error error_code then Returns (failure error_code c) []
  else if negb (Z.land flags kDNSServiceFlagsAdd =? 0) then
    match Resolver.new env service_name with
    | Returns r trace =>
        Returns (mk (socket c) (dns_peers c) (<[Resolver.this r := r]> (resolvers c)))
                trace
    | Aborts trace => Aborts trace
    end
  else Returns (peer_removed service_name c) [].

Definition peer_resolved (local_peer : LocalDnsPeer.t) (peer : DnsPeer.t) (c : t)
  : t * list Effect :=
  match find_peer_by_service_name c (DnsPeer.get_service_name peer) with
  | Some (i, p) =>
      let '(p, hostname_trace) := DnsPeer.set_hostname (DnsPeer.get_hostname peer) p in
      let '(p, port_trace) := DnsPeer.set_port (DnsPeer.get_port peer) p in
      (mk (socket c) (<[i := p]> (dns_peers c)) (resolvers c),
       Message QtDebugMsg "Browser: updating" (DnsPeer.get_service_name peer)
         :: hostname_trace ++ port_trace)
  | None =>
      if negb (String.eqb (LocalDnsPeer.get_service_name local_peer)
                          (DnsPeer.get_service_name peer)) then
        (mk (socket c) (dns_peers c ++ [peer]) (resolvers c),
         [Message QtDebugMsg "Browser: adding" (DnsPeer.get_service_name peer);
          Browser_added (DnsPeer.this peer)])
      else
        (c, [Message QtDebugMsg "Browser: ignoring" (DnsPeer.get_service_name peer)])
  end.

Definition service_name_changed (local_peer : LocalDnsPeer.t) (c : t) : t :=
  match find_peer_by_service_name c (LocalDnsPeer.get_service_name local_peer) with
  | Some (i, p) => peer_deleteLater i p c
  | None => c
  end.

(** [connect (r, &Resolver::peer_resolved, c, &Browser::peer_resolved)]:
    the slot runs inside each [emit] of the Resolver [res], on the
    DnsPeer the signal points to. *)
Fixpoint route (local_peer : LocalDnsPeer.t) (res : Resolver.t)
         (trace : list Effect) (c : t) : t * list Effect :=
  match trace with
  | [] => (c, [])
  | Resolver_peer_resolved sender peer :: rest =>
      let '(c, slot_trace) := peer_resolved local_peer (Resolver.peer res) c in
      let '(c, rest_trace) := route local_peer res rest c in
      (c, Resolver_peer_resolved sender peer :: slot_trace ++ rest_trace)
  | e :: rest =>
      let '(c, rest_trace) := route local_peer res rest c in
      (c, e :: rest_trace)
  end.

(** The resolve query of the Resolver at address [r] reports a result:
    [Resolver::resolver_callback] runs, and with it the slot connected to
    its signal. A result for an address that is not a Resolver of this
    Browser is not for this Browser. *)
Definition on_resolver_callback (local_peer : LocalDnsPeer.t) (r : ObjId)
           (error_code : Error) (hostname : QString) (port : Resolver.uint16_be)
           (c : t) : t * list Effect :=
  match resolvers c !! r with
  | Some res =>
      let '(res, trace) := Resolver.resolver_callback error_code hostname port res in
      route local_peer res trace
            (mk (socket c) (dns_peers c) (<[r := res]> (resolvers c)))
  | None => (c, [])
  end.

(** What the destruction of one Resolver shows: [being_destroyed] and the
    warning of the closure connected to it. *)
Definition resolver_destroyed (res : Resolver.t) : list Effect :=
  DnsSocket.destructor (Resolver.socket res) ++
  (if negb (isEmpty (DnsSocket.error_msg (Resolver.socket res))) then
     [Message QtWarningMsg "Browser: Resolver failure"
              (DnsSocket.error_msg (Resolver.socket res))]
   else []).

Definition resolver_posted (res : Resolver.t) : bool :=
  DnsSocket.deleteLater (Resolver.socket res).

(** Back in the event loop the posted deferred deletions are carried
    out: the DnsPeers and Resolvers marked by [deleteLater] leave the
    children. *)
Definition deferred_delete (c : t) : t * list Effect :=
  (mk (socket c)
      (List.filter (fun p => negb (DnsPeer.deleteLater p)) (dns_peers c))
      (filter (fun kv => resolver_posted (snd kv) = false) (resolvers c)),
   flat_map (fun kv => if resolver_posted (snd kv) then resolver_destroyed (snd kv) else [])
            (map_to_list (resolvers c))).

End Browser.

(** *** The local peer with its Browser *)

Module System.

Record t := mk {
  local_peer : LocalDnsPeer.t;
  browser : Browser.t
}.

(** [connect (local_peer, &LocalDnsPeer::service_name_changed, this,
    &Browser::service_name_changed)]: the slot runs for each emission,
    with the local peer as it is at the [emit]. *)
Fixpoint route (local_peer : LocalDnsPeer.t) (trace : list Effect) (c : Browser.t)
  : Browser.t :=
  match trace with
  | [] => c
  | LocalDnsPeer_service_name_changed :: rest =>
      route local_peer rest (Browser.service_name_changed local_peer c)
  | _ :: rest => route local_peer rest c
  end.

Definition set_service_name (new_service_name : QString) (s : t) : t * list Effect :=
  let '(lp, trace) := LocalDnsPeer.set_service_name new_service_name (local_peer s) in
  (mk lp (route lp trace (browser s)), trace).

Definition on_resolver_callback (r : ObjId) (error_code : Error) (hostname : QString)
           (port : Resolver.uint16_be) (s : t) : t * list Effect :=
  let '(c, trace) :=
    Browser.on_resolver_callback (local_peer s) r error_code hostname port (browser s) in
  (mk (local_peer s) c, trace).

Definition browser_callback (env : Resolver.Env) (flags : Z) (error_code : Error)
           (service_name : QString) (s : t) : Outcome t :=
  match Browser.browser_callback env flags error_code service_name (browser s) with
  | Returns c trace => Returns (mk (local_peer s) c) trace
  | Aborts trace => Aborts trace
  end.

(** [ServiceRecord::register_callback] of a live record. *)
Definition register_callback (error_code : Error) (service_name : QString)
           (c : ServiceRecord.t) (s : t) : ServiceRecord.t * t * list Effect :=
  if DnsSocket.has_error error_code then
    (DnsSocket.failure ServiceRecord.make_error_string error_code c, s, [])
  else
    let '(s, trace) := set_service_name service_name s in
    (c, s, Message QtDebugMsg "ServiceRecord: registered" service_name :: trace).

Definition deferred_delete (s : t) : t * list Effect :=
  let '(c, trace) := Browser.deferred_delete (browser s) in
  (mk (local_peer s) c, trace).

(** A peer-appeared notification for [service_name], followed by the
    successful result of the Resolver it started. *)
Definition appeared_then_resolved (env : Resolver.Env) (flags : Z)
           (service_name hostname : QString) (port : Resolver.uint16_be)
           (local_peer : LocalDnsPeer.t) (c : Browser.t) : Outcome Browser.t :=
  match Browser.browser_callback env flags kDNSServiceErr_NoError service_name c with
  | Returns c trace =>
      let '(c, resolved_trace) :=
        Browser.on_resolver_callback local_peer (Resolver.resolver_addr env)
                                     kDNSServiceErr_NoError hostname port c in
      Returns c (trace ++ resolved_trace)
  | Aborts trace => Aborts trace
  end.

(** What may happen next to the local peer and its Browser, as the event
    loop sees it: a result of the browse query, a result of the resolve
    query of a Resolver, a change of the accepted service name (by
    [register_callback] or by [~ServiceRecord]), the deferred deletions. *)
Inductive Event :=
| Browse (env : Resolver.Env) (flags : Z) (error_code : Error) (service_name : QString)
| Resolved (r : ObjId) (error_code : Error) (hostname : QString)
           (port : Resolver.uint16_be)
| ServiceName (new_service_name : QString)
| DeferredDelete.

Definition handle (e : Event) (s : t) : Outcome t :=
  match e with
  | Browse env flags error_code service_name =>
      browser_callback env flags error_code service_name s
  | Resolved r error_code hostname port =>
      let '(s, trace) := on_resolver_callback r error_code hostname port s in
      Returns s trace
  | ServiceName new_service_name =>
      let '(s, trace) := set_service_name new_service_name s in
      Returns s trace
  | DeferredDelete =>
      let '(s, trace) := deferred_delete s in
      Returns s trace
  end.

Fixpoint run (events : list Event) (s : t) : Outcome t :=
  match events with
  | [] => Returns s []
  | e :: rest =>
      match handle e s with
      | Returns s trace =>
          match run rest s with
          | Returns s' trace' => Returns s' (trace ++ trace')
          | Aborts trace' => Aborts (trace ++ trace')
          end
      | Aborts trace => Aborts trace
      end
  end.

(** No two tracked peers have the same name, and none that is not marked
    for deletion has the name of the local peer. *)
Definition untracked (lp : LocalDnsPeer.t) (l : list DnsPeer.t) : Prop :=
  NoDup (DnsPeer.service_name <$> l) /\
  forall p : DnsPeer.t,
    p ∈ l -> DnsPeer.deleteLater p = false ->
    DnsPeer.service_name p <> LocalDnsPeer.service_name lp.

Definition self_untracked (s : t) : Prop :=
  untracked (local_peer s) (Browser.dns_peers (browser s)).

(** The local peer with a Browser that has no child yet. *)
Definition idle (local_peer : LocalDnsPeer.t) (this : ObjId) : t :=
  mk local_peer (Browser.mk (DnsSocket.new this) [] ∅).

(** The port the [ServiceRecord] constructor hands to [DNSServiceRegister]:
    [qToBigEndian (local_peer->get_port ())]. *)
Definition advertised_port (local_peer : LocalDnsPeer.t) : Resolver.uint16_be :=
  Resolver.qToBigEndian (LocalDnsPeer.get_port local_peer).

End System.

(** *** Sample states *)

Module Sample.

(** The local peer of user [alice] on [host1], registered. *)
Definition alice : LocalDnsPeer.t := LocalDnsPeer.mk "host1" "alice" "alice@host1" 4242.

(** A Browser that has not discovered anything yet. *)
Definition idle_browser : Browser.t := Browser.mk (DnsSocket.new 10%nat) [] ∅.

(** A Resolver for [alice@host1], waiting for its result, and a Browser
    that owns it. *)
Definition alice_resolver : Resolver.t :=
  Resolver.mk (DnsSocket.new 11%nat) (DnsPeer.new 12%nat "alice@host1" 0).

Definition resolving_alice : Browser.t :=
  Browser.mk (DnsSocket.new 10%nat) [] {[ 11%nat := alice_resolver ]}.

(** What the environment answers to the first and to the second Resolver
    built. *)
Definition first_env : Resolver.Env := Resolver.mkEnv 11%nat 12%nat 0 kDNSServiceErr_NoError 5.
Definition second_env : Resolver.Env := Resolver.mkEnv 13%nat 14%nat 0 kDNSServiceErr_NoError 6.

(** Port 4242, as it travels. *)
Definition port_4242 : Resolver.uint16_be := (16, 146).

(** A Browser tracking one peer. *)
Definition carol : DnsPeer.t := DnsPeer.mk 12%nat "carol@h3" "h3.local" 4242 false.
Definition tracking_carol : Browser.t := Browser.mk (DnsSocket.new 10%nat) [carol] ∅.

Definition verbose : LocalDnsPeer.t :=
  LocalDnsPeer.mk "host1"
    "uuuuuuuuuuuuuuuuuuuuuuuuuuuuuuuuuuuuuuuuuuuuuuuuuuuuuuuuuuuuuuuuuuuuuu"
    EmptyString 4242.

(** A ServiceRecord waiting for the answer of the facility. *)
Definition registering : ServiceRecord.t := DnsSocket.new 20%nat.

(** A Browser tracking a peer that has the name the local peer had. *)
Definition old_self : DnsPeer.t := DnsPeer.mk 12%nat "alice@host1" "host1.local" 4242 false.

(** [carol@h3] appears and is resolved, then the local peer is given that
    very name, and the event loop turns. *)
Definition carol_story : list System.Event :=
  [System.Browse first_env kDNSServiceFlagsAdd kDNSServiceErr_NoError "carol@h3";
   System.Resolved 11%nat kDNSServiceErr_NoError "h3.local" port_4242;
   System.ServiceName "carol@h3";
   System.DeferredDelete].

End Sample.

End Discovery.

(** ** The earlier revision, with the hostname lookup *)

Module Legacy.

Definition ObjId := nat.
Definition Error := Z.
Definition kDNSServiceErr_NoError : Error := 0.
Definition kDNSServiceFlagsAdd : Z := 2.

(** A [QHostAddress], by its text; the null address is the empty text. *)
Definition QHostAddress := QString.

(** Modelled from the spec: [Peer] is declared in [localshare.h], which is
    not among the sources; a peer has a username, a hostname, an address and
    a port, the fields [discovery.h] reads and writes. *)
Record Peer := mkPeer {
  username : QString;
  hostname : QString;
  address : QHostAddress;
  port : Z
}.

(** What the slot reads of a [QHostInfo]. *)
Inductive HostInfoError := NoError | HostNotFound | UnknownError.

Record QHostInfo := mkHostInfo {
  error : HostInfoError;
  addresses : list QHostAddress;
  hostName : QString;
  errorString : QString
}.

Inductive Effect :=
| DnsSocket_error (e : Error)
| Service_registered (name : QString)
| Resolver_peer_complete (sender : ObjId) (peer : Peer)
| Browser_added (peer : Peer)
| Browser_removed (username : QString)
| QHostInfo_resultsReady (id : Z) (receiver : ObjId)
| Message (type : QtMsgType) (text : QString) (arg : QString).

Inductive Outcome (A : Type) :=
| Returns (a : A) (trace : list Effect)
| Aborts (trace : list Effect).
Arguments Returns {A} a trace.
Arguments Aborts {A} trace.

(** *** The lookups of [QHostInfo] *)

Module HostLookup.

(** The state of Qt's lookup facility, as its interface describes it: the
    lookups under way, each with the object whose slot will receive the
    result, and the counter the identifiers come from. [lookupHost] hands
    out a new identifier for each lookup; [abortHostLookup] takes the lookup
    of that identifier out, and no result is delivered for it. *)
Record t := mk {
  pending : gmap Z ObjId;
  next_id : Z
}.

(** [QHostInfo::lookupHost (name, receiver, member)]. *)
Definition lookupHost (receiver : ObjId) (q : t) : Z * t :=
  (next_id q, mk (<[next_id q := receiver]> (pending q)) (next_id q + 1)).

(** [QHostInfo::abortHostLookup (id)]. *)
Definition abortHostLookup (id : Z) (q : t) : t :=
  mk (delete id (pending q)) (next_id q).

End HostLookup.

(** *** DnsSocket *)

Module DnsSocket.

(** [fromFunc] and the constructor it calls: [err] is the answer of the
    query function, [fd] the descriptor of the new reference. It answers
    whether a socket was built ([nullptr] otherwise). *)
Definition fromFunc (func_name : QString) (err : Error) (fd : Z) : Outcome bool :=
  if err =? kDNSServiceErr_NoError then
    if negb (fd =? -1) then Returns true []
    else Aborts [Message QtFatalMsg "DNSServiceRefSockFD failed" EmptyString]
  else Returns false [Message QtWarningMsg func_name (pretty err)].

(** [has_pending_data], once the callbacks of the round have run. *)
Definition has_pending_data (err : Error) : list Effect :=
  if negb (err =? kDNSServiceErr_NoError) then
    [Message QtWarningMsg "DNSServiceProcessResult error:" (pretty err);
     DnsSocket_error err]
  else [].

End DnsSocket.

(** *** Service *)

Module Service.

Definition register_callback (error_code : Error) (name : QString) : list Effect :=
  if error_code =? kDNSServiceErr_NoError then [Service_registered name]
  else [Message QtCriticalMsg "DNSServiceRegister error [callback]:" (pretty error_code)].

End Service.

(** *** Resolver *)

Module Resolver.

Record t := mk {
  this : ObjId;
  hostname_lookup_id : Z;
  peer_info : Peer;
  deleteLater : bool
}.

Definition do_deleteLater (c : t) : t :=
  mk (this c) (hostname_lookup_id c) (peer_info c) true.

(** What the environment decides when a Resolver is built: its address,
    the content of the fields of [peer_info] the constructor leaves
    alone, the answer of [DNSServiceResolve] and the descriptor. *)
Record Env := mkEnv {
  resolver_addr : ObjId;
  uninitialised_port : Z;
  query_err : Error;
  sock_fd : Z
}.

Definition new (env : Env) (name : QString) : Outcome t :=
  let c := mk (resolver_addr env) (-1)
              (mkPeer name EmptyString EmptyString (uninitialised_port env)) false in
  match DnsSocket.fromFunc "DNSServiceResolve" (query_err env) (sock_fd env) with
  | Returns true trace => Returns c trace
  | Returns false trace => Returns (do_deleteLater c) trace
  | Aborts trace => Aborts trace
  end.

(** [~Resolver]. *)
Definition destructor (c : t) (q : HostLookup.t) : HostLookup.t :=
  if negb (hostname_lookup_id c =? -1) then
    HostLookup.abortHostLookup (hostname_lookup_id c) q
  else q.

Definition uint16_be := (Z * Z)%type.

Definition qFromBigEndian (port : uint16_be) : Z :=
  Z.lor (Z.shiftl (Z.land (fst port) 255) 8) (Z.land (snd port) 255).

Definition resolver_callback (error_code : Error) (hostname : QString)
           (port : uint16_be) (c : t) (q : HostLookup.t)
  : t * HostLookup.t * list Effect :=
  if error_code =? kDNSServiceErr_NoError then
    let peer_info :=
      mkPeer (username (peer_info c)) hostname (address (peer_info c))
             (qFromBigEndian port) in
    let '(id, q) := HostLookup.lookupHost (this c) q in
    (mk (this c) id peer_info (deleteLater c), q, [])
  else
    (do_deleteLater c, q,
     [Message QtWarningMsg "DNSServiceResolve error [callback]:" (pretty error_code)]).

(** [hostname_resolved], up to the slots connected to [peer_complete]. *)
Definition hostname_resolved (host_info : QHostInfo) (c : t) : Outcome t :=
  let c := mk (this c) (-1) (peer_info c) (deleteLater c) in
  match error host_info with
  | NoError =>
      match addresses host_info with
      | [] => Aborts [Message QtFatalMsg "QHostInfo returned empty list" EmptyString]
      | first :: _ =>
          let peer_info :=
            mkPeer (username (peer_info c)) (hostname (peer_info c)) first
                   (port (peer_info c)) in
          Returns (mk (this c) (-1) peer_info true)
                  [Resolver_peer_complete (this c) peer_info]
      end
  | _ =>
      Returns (do_deleteLater c)
              [Message QtWarningMsg "QHostInfo failed for"
                       (hostName host_info +:+ " " +:+ errorString host_info)]
  end.

(** The slot [deleteLater] connected to the [error] signal of the
    Resolver's socket. *)
Definition socket_error (err : Error) (c : t) : t * list Effect :=
  let trace := DnsSocket.has_pending_data err in
  (if negb (err =? kDNSServiceErr_NoError) then do_deleteLater c else c, trace).

End Resolver.

(** *** Browser *)

Module Browser.

(** [discovered_peers] and [instance_username], and the Resolvers the
    Browser is parent of, by address. *)
Record t := mk {
  discovered_peers : gset QString;
  instance_username : QString;
  resolvers : gmap ObjId Resolver.t
}.

(** The constructor; the socket [fromBrowse] answers is not kept. *)
Definition new (username : QString) (err : Error) (fd : Z) : Outcome t :=
  match DnsSocket.fromFunc "DNSServiceBrowse" err fd with
  | Returns _ trace => Returns (mk ∅ username ∅) trace
  | Aborts trace => Aborts trace
  end.

(** The removal branch of [browser_callback]. *)
Definition peer_removed (name : QString) (c : t) : t * list Effect :=
  let username := name in
  if negb (String.eqb username (instance_username c)) then
    if bool_decide (username ∈ discovered_peers c) then
      (mk (discovered_peers c ∖ {[username]}) (instance_username c) (resolvers c),
       [Browser_removed username])
    else
      (c, [Message QtWarningMsg "Browser: remove: peer does not exists:" username])
  else (c, []).

Definition browser_callback (env : Resolver.Env) (flags : Z) (error_code : Error)
           (name : QString) (c : t) : Outcome t :=
  if error_code =? kDNSServiceErr_NoError then
    if negb (Z.land flags kDNSServiceFlagsAdd =? 0) then
      match Resolver.new env name with
      | Returns r trace =>
          Returns (mk (discovered_peers c) (instance_username c)
                      (<[Resolver.this r := r]> (resolvers c)))
                  trace
      | Aborts trace => Aborts trace
      end
    else
      let '(c, trace) := peer_removed name c in
      Returns c trace
  else
    Returns c [Message QtCriticalMsg "DNSServiceBrowse error [callback]:"
                       (pretty error_code)].

Definition resolved_peer_added (peer : Peer) (c : t) : t * list Effect :=
  if negb (String.eqb (username peer) (instance_username c)) then
    if negb (bool_decide (username peer ∈ discovered_peers c)) then
      (mk (discovered_peers c ∪ {[username peer]}) (instance_username c) (resolvers c),
       [Browser_added peer])
    else
      (c, [Message QtWarningMsg "Browser: add: peer already exists:" (username peer)])
  else (c, []).

Definition set_resolver (r : ObjId) (res : Resolver.t) (c : t) : t :=
  mk (discovered_peers c) (instance_username c) (<[r := res]> (resolvers c)).

Definition remove_resolver (r : ObjId) (c : t) : t :=
  mk (discovered_peers c) (instance_username c) (delete r (resolvers c)).

End Browser.

(** *** The Browser, its Resolvers and the lookups they started *)

Module World.

Record t := mk {
  browser : Browser.t;
  lookups : HostLookup.t
}.

Definition browser_callback (env : Resolver.Env) (flags : Z) (error_code : Error)
           (name : QString) (w : t) : Outcome t :=
  match Browser.browser_callback env flags error_code name (browser w) with
  | Returns c trace => Returns (mk c (lookups w)) trace
  | Aborts trace => Aborts trace
  end.

(** The resolve query of the Resolver at address [r] reports a result. *)
Definition resolver_callback (r : ObjId) (error_code : Error) (hostname : QString)
           (port : Resolver.uint16_be) (w : t) : t * list Effect :=
  match Browser.resolvers (browser w) !! r with
  | Some res =>
      let '(res, q, trace) :=
        Resolver.resolver_callback error_code hostname port res (lookups w) in
      (mk (Browser.set_resolver r res (browser w)) q, trace)
  | None => (w, [])
  end.

(** [connect (r, &Resolver::peer_complete, c,
    &Browser::resolved_peer_added)]: the slot runs inside each [emit]. *)
Fixpoint route (trace : list Effect) (c : Browser.t) : Browser.t * list Effect :=
  match trace with
  | [] => (c, [])
  | Resolver_peer_complete sender peer :: rest =>
      let '(c, slot_trace) := Browser.resolved_peer_added peer c in
      let '(c, rest_trace) := route rest c in
      (c, Resolver_peer_complete sender peer :: slot_trace ++ rest_trace)
  | e :: rest =>
      let '(c, rest_trace) := route rest c in
      (c, e :: rest_trace)
  end.

(** The lookup [id] is finished. [QHostInfo] hands the result to the
    receiver registered by [lookupHost] through a queued connection,
    which Qt drops when the receiver is gone; a lookup that is not under
    way (never started, finished or aborted) has no result to hand
    over. *)
Definition lookup_finished (id : Z) (host_info : QHostInfo) (w : t) : Outcome t :=
  match HostLookup.pending (lookups w) !! id with
  | Some receiver =>
      let q := HostLookup.mk (delete id (HostLookup.pending (lookups w)))
                             (HostLookup.next_id (lookups w)) in
      match Browser.resolvers (browser w) !! receiver with
      | Some res =>
          match Resolver.hostname_resolved host_info res with
          | Returns res trace =>
              let '(c, trace) :=
                route trace (Browser.set_resolver receiver res (browser w)) in
              Returns (mk c q) (QHostInfo_resultsReady id receiver :: trace)
          | Aborts trace => Aborts (QHostInfo_resultsReady id receiver :: trace)
          end
      | None => Returns (mk (browser w) q) []
      end
  | None => Returns w []
  end.

(** The Resolver at address [r] is deleted: its destructor runs and it
    leaves the children of the Browser. *)
Definition destroy_resolver (r : ObjId) (w : t) : t :=
  match Browser.resolvers (browser w) !! r with
  | Some res =>
      mk (Browser.remove_resolver r (browser w)) (Resolver.destructor res (lookups w))
  | None => w
  end.

(** Back in the event loop: the Resolvers marked by [deleteLater] are
    deleted. *)
Definition deferred_delete (w : t) : t :=
  foldr (fun kv w => if Resolver.deleteLater (snd kv) then destroy_resolver (fst kv) w
                     else w)
        w (map_to_list (Browser.resolvers (browser w))).

(** The Browser is deleted: all its children are. *)
Definition destroy_browser (w : t) : t :=
  foldr (fun kv w => destroy_resolver (fst kv) w)
        w (map_to_list (Browser.resolvers (browser w))).

(** What may happen next, as the event loop sees it. *)
Inductive Event :=
| Browse (env : Resolver.Env) (flags : Z) (error_code : Error) (name : QString)
| Resolve (r : ObjId) (error_code : Error) (hostname : QString)
          (port : Resolver.uint16_be)
| SocketError (r : ObjId) (err : Error)
| LookupFinished (id : Z) (host_info : QHostInfo)
| DeferredDelete
| DestroyBrowser.

Definition handle (e : Event) (w : t) : Outcome t :=
  match e with
  | Browse env flags error_code name => browser_callback env flags error_code name w
  | Resolve r error_code hostname port =>
      let '(w, trace) := resolver_callback r error_code hostname port w in
      Returns w trace
  | SocketError r err =>
      match Browser.resolvers (browser w) !! r with
      | Some res =>
          let '(res, trace) := Resolver.socket_error err res in
          Returns (mk (Browser.set_resolver r res (browser w)) (lookups w)) trace
      | None => Returns w []
      end
  | LookupFinished id host_info => lookup_finished id host_info w
  | DeferredDelete => Returns (deferred_delete w) []
  | DestroyBrowser => Returns (destroy_browser w) []
  end.

(** The events in turn; [qFatal] ends the run. *)
Fixpoint run (events : list Event) (w : t) : Outcome t :=
  match events with
  | [] => Returns w []
  | e :: rest =>
      match handle e w with
      | Returns w trace =>
          match run rest w with
          | Returns w' trace' => Returns w' (trace ++ trace')
          | Aborts trace' => Aborts (trace ++ trace')
          end
      | Aborts trace => Aborts trace
      end
  end.

Definition trace_of {A} (o : Outcome A) : list Effect :=
  match o with
  | Returns _ trace => trace
  | Aborts trace => trace
  end.


(** The identifiers the Resolvers hold were handed out by [lookupHost],
    which starts counting at 1. *)
Definition tokens_handed_out (w : t) : Prop :=
  0 < HostLookup.next_id (lookups w) /\
  forall (r : ObjId) (res : Resolver.t),
    Browser.resolvers (browser w) !! r = Some res ->
    Resolver.hostname_lookup_id res < HostLookup.next_id (lookups w).

(** The world a new Browser starts in: nothing discovered, no Resolver, no
    lookup under way. *)
Definition initial (username : QString) : t :=
  mk (Browser.mk ∅ username ∅) (HostLookup.mk ∅ 1).

(** The lookups whose result was handed to a slot, as a trace shows
    them. *)
Fixpoint delivered (trace : list Effect) : list (Z * ObjId) :=
  match trace with
  | [] => []
  | QHostInfo_resultsReady id receiver :: rest => (id, receiver) :: delivered rest
  | _ :: rest => delivered rest
  end.

(** The [peer_complete] signals of a trace. *)
Fixpoint completed (trace : list Effect) : list Peer :=
  match trace with
  | [] => []
  | Resolver_peer_complete _ peer :: rest => peer :: completed rest
  | _ :: rest => completed rest
  end.

(** What a listener that starts from the set [names] and follows the
    [added] and [removed] signals of a trace ends with. *)
Fixpoint replay (trace : list Effect) (names : gset QString) : gset QString :=
  match trace with
  | [] => names
  | Browser_added peer :: rest => replay rest (names ∪ {[username peer]})
  | Browser_removed name :: rest => replay rest (names ∖ {[name]})
  | _ :: rest => replay rest names
  end.

(** The names of the [added] and of the [removed] signals of a trace. *)
Fixpoint added_names (trace : list Effect) : list QString :=
  match trace with
  | [] => []
  | Browser_added peer :: rest => username peer :: added_names rest
  | _ :: rest => added_names rest
  end.

Fixpoint removed_names (trace : list Effect) : list QString :=
  match trace with
  | [] => []
  | Browser_removed name :: rest => name :: removed_names rest
  | _ :: rest => removed_names rest
  end.

(** What a slot or a step does to the Browser, as far as the set of
    discovered names goes: every change of the set is told by a signal, the
    Browser keeps its username, and its own username stays out of the set and
    out of the signals. *)
Definition told (c c' : Browser.t) (trace : list Effect) : Prop :=
  Browser.discovered_peers c' = replay trace (Browser.discovered_peers c) /\
  Browser.instance_username c' = Browser.instance_username c /\
  ((Browser.instance_username c ∉ Browser.discovered_peers c) ->
   (Browser.instance_username c ∉ Browser.discovered_peers c')) /\
  (Browser.instance_username c ∉ added_names trace) /\
  (Browser.instance_username c ∉ removed_names trace).

End World.

(** *** Sample states *)

Module Sample.

(** A Resolver for [carol] that waits for the lookup 1 of [h3.local], in a
    Browser of user [alice], besides a Resolver for [dave] that still waits
    for its resolve query. *)
Definition looking_up : Resolver.t :=
  Resolver.mk 11%nat 1 (mkPeer "carol" "h3.local" EmptyString 4242) false.

Definition resolving : Resolver.t :=
  Resolver.mk 13%nat (-1) (mkPeer "dave" EmptyString EmptyString 0) false.

Definition world : World.t :=
  World.mk (Browser.mk ∅ "alice" {[ 11%nat := looking_up; 13%nat := resolving ]})
           (HostLookup.mk {[ 1 := 11%nat ]} 2).

(** A lookup that succeeds without any address, and one with an address. *)
Definition no_address : QHostInfo := mkHostInfo NoError [] "h3.local" EmptyString.
Definition one_address : QHostInfo :=
  mkHostInfo NoError ["192.168.1.10"] "h3.local" EmptyString.

(** [dave] is resolved and looked up, [carol]'s lookup ends, [dave]
    appears once more, [carol] disappears. *)
Definition story : list World.Event :=
  [World.Resolve 13%nat kDNSServiceErr_NoError "h4.local" (16, 147);
   World.LookupFinished 2 (mkHostInfo NoError ["192.168.1.11"; "192.168.1.12"]
                                      "h4.local" EmptyString);
   World.LookupFinished 1 one_address;
   World.DeferredDelete;
   World.Browse (Resolver.mkEnv 15%nat 0 kDNSServiceErr_NoError 7) kDNSServiceFlagsAdd
                kDNSServiceErr_NoError "dave";
   World.Browse (Resolver.mkEnv 17%nat 0 kDNSServiceErr_NoError 8) 0
                kDNSServiceErr_NoError "carol"].

End Sample.

End Legacy.

(** ** [compatibility.h] *)

Module Compatibility.

(** [IndexSequence<I...>], by the list of its indices. [Successor] appends
    [sizeof...(I)]. *)
Definition IndexSequence := list nat.

Definition Successor (s : IndexSequence) : IndexSequence := s ++ [length s].

(** [Impl::Seq<N>::Type]. *)
Fixpoint Seq (N : nat) : IndexSequence :=
  match N with
  | O => []
  | S n => Successor (Seq n)
  end.

Definition MakeIndexSequence (N : nat) : IndexSequence := Seq N.

(** [IndexSequenceFor<Types...>], for the list of the types. *)
Definition IndexSequenceFor {T : Type} (types : list T) : IndexSequence :=
  MakeIndexSequence (length types).

End Compatibility.

(** ** Properties of the string operations *)

Lemma append_nil_l (s : QString) : EmptyString +:+ s = s.
Proof. reflexivity. Qed.

Lemma append_cons (c : ascii) (s1 s2 : QString) :
  String c s1 +:+ s2 = String c (s1 +:+ s2).
Proof. reflexivity. Qed.

Ltac simpl_append := rewrite ?append_cons, ?append_nil_l.

(** A [Forall] over an explicit list, each element by [tauto]. *)
Ltac forall_signals :=
  repeat first [apply List.Forall_nil | apply List.Forall_cons; [tauto|]].

(** Settle the integer tests of the goal that linear arithmetic decides. *)
Ltac settle_tests :=
  rewrite ?Z.geb_leb, ?Z.gtb_ltb;
  repeat match goal with
    | |- context [?a <=? ?b] =>
        first [rewrite (proj2 (Z.leb_le a b)) by lia
              | rewrite (proj2 (Z.leb_gt a b)) by lia]
    | |- context [?a <? ?b] =>
        first [rewrite (proj2 (Z.ltb_lt a b)) by lia
              | rewrite (proj2 (Z.ltb_ge a b)) by lia]
    end.

Lemma append_empty_r (s : QString) : s +:+ EmptyString = s.
Proof. induction s as [|c s IH]; simpl_append; [reflexivity | now rewrite IH]. Qed.

Lemma append_assoc (s1 s2 s3 : QString) : (s1 +:+ s2) +:+ s3 = s1 +:+ (s2 +:+ s3).
Proof. induction s1 as [|c s1 IH]; simpl_append; [reflexivity | now rewrite IH]. Qed.

Section StringFacts.

Variable sep : ascii.

Lemma behind_app (l1 l2 : list QString) : behind sep (l1 ++ l2) = behind sep l1 +:+ behind sep l2.
Proof.
  induction l1 as [|f l1 IH]; simpl; [reflexivity|].
  now rewrite IH, append_assoc.
Qed.

Lemma split_cons (s : QString) : exists f fs, split sep s = f :: fs.
Proof.
  induction s as [|c s (f & fs & IH)]; simpl; [now eauto|].
  destruct (Ascii.eqb c sep); [now eauto|]. rewrite IH. now eauto.
Qed.

(** Splitting loses nothing: the fields and the separators make up the
    string. *)
Lemma split_spec (s : QString) (f : QString) (fs : list QString) :
  split sep s = f :: fs -> s = f +:+ behind sep fs.
Proof.
  revert f fs. induction s as [|c s IH]; simpl; intros f fs H.
  - now inversion H.
  - destruct (Ascii.eqb_spec c sep) as [->|Hne].
    + inversion H; subst; clear H. simpl_append.
      destruct (split_cons s) as (g & gs & Hs). rewrite Hs. simpl. simpl_append.
      now rewrite (IH _ _ Hs) at 1.
    + destruct (split_cons s) as (g & gs & Hs). rewrite Hs in H.
      inversion H; subst; clear H. simpl_append. now rewrite <- (IH _ _ Hs).
Qed.

Lemma split_no_sep (s : QString) : contains sep s = false -> split sep s = [s].
Proof.
  induction s as [|c s IH]; simpl; [reflexivity|]. intros H.
  apply orb_false_iff in H as [Hc Hs]. rewrite Hc, (IH Hs). reflexivity.
Qed.

Lemma split_with_sep (s : QString) :
  contains sep s = true -> exists f g gs, split sep s = f :: g :: gs.
Proof.
  induction s as [|c s IH]; simpl; [discriminate|]. intros H.
  destruct (Ascii.eqb c sep).
  - destruct (split_cons s) as (g & gs & ->). now eauto.
  - simpl in H. destruct (IH H) as (f & g & gs & ->). now eauto.
Qed.

(** Past the first field, the loop of [section] appends each field behind
    a separator, until field [end_]. *)
Lemma section_loop_behind (end_ : Z) (sections : list QString) :
  forall (x : Z) (ret : QString),
    0 < x ->
    section_loop sep 0 end_ x x sections ret
    = ret +:+ behind sep (firstn (Z.to_nat (end_ - x + 1)) sections).
Proof.
  induction sections as [|sec rest IH]; intros x ret Hx; simpl.
  - rewrite firstn_nil. simpl. now rewrite append_empty_r.
  - destruct (Z.leb_spec x end_) as [Hle|Hgt].
    + settle_tests. simpl. rewrite IH by lia.
      replace (Z.to_nat (end_ - x + 1)) with (S (Z.to_nat (end_ - (x + 1) + 1))) by lia.
      simpl. rewrite !append_assoc. simpl_append. reflexivity.
    + replace (Z.to_nat (end_ - x + 1)) with 0%nat by lia.
      simpl. now rewrite append_empty_r.
Qed.

(** [section (sep, 0, -2)]: nothing when there is a single field, else
    all the fields but the last. *)
Lemma section_single (s f : QString) :
  split sep s = [f] -> section s sep 0 (-2) = EmptyString.
Proof. intros H. unfold section. rewrite H. reflexivity. Qed.

Lemma section_but_last (s f : QString) (fs : list QString) :
  split sep s = f :: fs -> fs <> [] ->
  section s sep 0 (-2) = f +:+ behind sep (removelast fs).
Proof.
  intros H Hfs. unfold section. rewrite H.
  assert (Hlen : (1 <= length fs)%nat) by (destruct fs; simpl; [congruence | lia]).
  cbn [length]. cbn [Z.ltb Z.compare]. cbv zeta.
  settle_tests. cbn [orb section_loop]. settle_tests. cbn [andb]. simpl_append.
  rewrite section_loop_behind by lia. f_equal. f_equal.
  rewrite removelast_firstn_len. f_equal. lia.
Qed.

Lemma behind_removelast (fs : list QString) :
  fs <> [] ->
  behind sep fs = behind sep (removelast fs) +:+ String sep (List.last fs EmptyString).
Proof.
  intros Hfs. rewrite (app_removelast_last EmptyString Hfs) at 1.
  rewrite behind_app. simpl. now rewrite append_empty_r.
Qed.

End StringFacts.

Lemma arg2_pattern (username suffix : QString) :
  arg2 "%1@%2" username suffix = username +:+ String "@" suffix.
Proof. cbn. simpl_append. now rewrite append_empty_r. Qed.

(** ** NamingScheme *)

Section Naming.

Import Discovery.

(** A name [u@x] whose [x] has no ['@'] splits into the fields of [u]
    followed by [x]. *)
Lemma split_at_last (sep : ascii) (u x : QString) :
  contains sep x = false ->
  split sep (u +:+ String sep x) = split sep u ++ [x].
Proof.
  intros Hx. induction u as [|c u IH]; simpl_append; simpl.
  - rewrite Ascii.eqb_refl, (split_no_sep sep x Hx). reflexivity.
  - rewrite IH. destruct (Ascii.eqb c sep); [reflexivity|].
    destruct (split_cons sep u) as (f & fs & ->). reflexivity.
Qed.

(** Every name with an ['@'] is of that shape. *)
Lemma at_last_exists (sep : ascii) (s : QString) :
  contains sep s = true ->
  exists u x, s = u +:+ String sep x /\ contains sep x = false.
Proof.
  induction s as [|c s IH]; simpl; [discriminate|]. intros H.
  destruct (contains sep s) eqn:Hs.
  - destruct (IH eq_refl) as (u & x & -> & Hx).
    exists (String c u), x. now simpl_append.
  - rewrite orb_false_r in H. apply Ascii.eqb_eq in H as ->.
    exists EmptyString, s. now simpl_append.
Qed.

Lemma section_at_last (u x : QString) :
  contains "@" x = false ->
  section (u +:+ String "@" x) "@" 0 (-2) = u.
Proof.
  intros Hx. destruct (split_cons "@" u) as (f & fs & Hu).
  rewrite (section_but_last "@" _ f (fs ++ [x])).
  - rewrite removelast_last. symmetry. now apply split_spec.
  - now rewrite split_at_last, Hu.
  - now destruct fs.
Qed.

Lemma suffix_of_at_last (u x : QString) :
  contains "@" x = false -> suffix_of (u +:+ String "@" x) = x.
Proof.
  intros Hx. unfold suffix_of. rewrite split_at_last by assumption.
  apply last_last.
Qed.

Lemma username_of_at_last (u x : QString) :
  contains "@" x = false ->
  username_of (u +:+ String "@" x) = if isEmpty u then u +:+ String "@" x else u.
Proof.
  intros Hx. unfold username_of. rewrite section_at_last by assumption.
  now destruct u.
Qed.

(** C9: a string without ['@'] is its own username: [username_of] hands it
    back unchanged. And [username_of] answers on every input, a total
    function: whatever the string, the answer is the string itself or the
    non-empty part in front of one of its ['@']. *)
Theorem username_of_without_at (s : QString) :
  contains "@" s = false ->
  username_of s = s /\
  forall t : QString,
    username_of t = t \/
    exists suffix, username_of t <> EmptyString /\ t = username_of t +:+ String "@" suffix.
Proof.
  intros Hs. split.
  - unfold username_of.
    now rewrite (section_single "@" s s (split_no_sep "@" s Hs)).
  - intros t. destruct (contains "@" t) eqn:Ht.
    + destruct (at_last_exists "@" t Ht) as (u & x & -> & Hx).
      rewrite username_of_at_last by assumption.
      destruct u as [|c u]; [now left|]. right. exists x. now split.
    + left. unfold username_of.
      now rewrite (section_single "@" t t (split_no_sep "@" t Ht)).
Qed.

Lemma username_of_without_at_witness :
  contains "@" "alice" = false /\ username_of "alice" = "alice".
Proof.
  split; [reflexivity|].
  exact (proj1 (username_of_without_at "alice" eq_refl)).
Defined.

(** C4, as the claim has it, fails at a name whose part before the last
    ['@'] is empty: [username_of] falls back to the whole name and the
    recomposition doubles it. *)
Lemma round_trip_fails_on_empty_prefix :
  contains "@" "@host1" = true /\
  username_of "@host1" = "@host1" /\
  suffix_of "@host1" = "host1" /\
  service_name_of (username_of "@host1") (suffix_of "@host1") = "@host1@host1" /\
  service_name_of (username_of "@host1") (suffix_of "@host1") <> "@host1".
Proof. repeat split; try reflexivity. discriminate. Qed.

(** C4, amended: for a service name [s] with at least one ['@'] whose part
    [u] before the last ['@'] is not empty ([x] being the part after it),
    [username_of] gives [u], the suffix is [x], and recomposing them gives
    [s] back, character for character. *)
Theorem round_trip_nonempty_prefix (s u x : QString) :
  s = u +:+ String "@" x ->
  contains "@" x = false ->
  u <> EmptyString ->
  username_of s = u /\ suffix_of s = x /\
  service_name_of (username_of s) (suffix_of s) = s.
Proof.
  intros -> Hx Hu.
  assert (Hname : username_of (u +:+ String "@" x) = u).
  { rewrite username_of_at_last by assumption. now destruct u. }
  rewrite Hname, suffix_of_at_last by assumption.
  repeat split. unfold service_name_of. apply arg2_pattern.
Qed.

Lemma round_trip_nonempty_prefix_witness :
  username_of "alice@host1" = "alice" /\ suffix_of "alice@host1" = "host1" /\
  service_name_of (username_of "alice@host1") (suffix_of "alice@host1") = "alice@host1".
Proof.
  apply (round_trip_nonempty_prefix "alice@host1" "alice" "host1");
    [reflexivity | reflexivity | discriminate].
Defined.

(** The last ['@'] is the one that counts. *)
Example username_of_two_ats : username_of "a@b@host" = "a@b".
Proof. reflexivity. Qed.

End Naming.

(** ** DnsPeer *)

Section DnsPeerFacts.

Import Discovery.

(** C10: the setters of a DnsPeer. With the value already stored, the peer
    is left as it is and nothing is emitted; with another value, the field
    takes it and the signal of that field is emitted, once. So the signal is
    emitted exactly when the new value differs from the old one, and the
    other fields are never touched. *)
Theorem setters_notify_on_change (p : DnsPeer.t) (new_hostname : QString) (new_port : Z) :
  (new_hostname = DnsPeer.hostname p ->
   DnsPeer.set_hostname new_hostname p = (p, [])) /\
  (new_hostname <> DnsPeer.hostname p ->
   snd (DnsPeer.set_hostname new_hostname p) = [DnsPeer_hostname_changed (DnsPeer.this p)]) /\
  (new_port = DnsPeer.port p ->
   DnsPeer.set_port new_port p = (p, [])) /\
  (new_port <> DnsPeer.port p ->
   snd (DnsPeer.set_port new_port p) = [DnsPeer_port_changed (DnsPeer.this p)]) /\
  fst (DnsPeer.set_hostname new_hostname p)
  = DnsPeer.mk (DnsPeer.this p) (DnsPeer.service_name p) new_hostname
               (DnsPeer.port p) (DnsPeer.deleteLater p) /\
  fst (DnsPeer.set_port new_port p)
  = DnsPeer.mk (DnsPeer.this p) (DnsPeer.service_name p) (DnsPeer.hostname p)
               new_port (DnsPeer.deleteLater p).
Proof.
  unfold DnsPeer.set_hostname, DnsPeer.set_port.
  destruct (String.eqb_spec (DnsPeer.hostname p) new_hostname) as [Hh|Hh];
    destruct (Z.eqb_spec (DnsPeer.port p) new_port) as [Hp|Hp];
    destruct p; simpl in *; subst; repeat split; intros; congruence.
Qed.

Example set_hostname_same :
  DnsPeer.set_hostname "h3.local" (DnsPeer.mk 7%nat "carol@h3" "h3.local" 4242 false)
  = (DnsPeer.mk 7%nat "carol@h3" "h3.local" 4242 false, []).
Proof. reflexivity. Qed.

Example set_port_other :
  DnsPeer.set_port 4243 (DnsPeer.mk 7%nat "carol@h3" "h3.local" 4242 false)
  = (DnsPeer.mk 7%nat "carol@h3" "h3.local" 4243 false, [DnsPeer_port_changed 7%nat]).
Proof. reflexivity. Qed.

End DnsPeerFacts.

(** ** Browser *)

Section BrowserFacts.

Import Discovery.

Lemma find_from_none (i : nat) (children : list DnsPeer.t) (name : QString) :
  Browser.find_from i children name = None <->
  Forall (fun p => DnsPeer.service_name p <> name) children.
Proof.
  revert i. induction children as [|p rest IH]; intros i; simpl.
  - split; [constructor | reflexivity].
  - unfold DnsPeer.get_service_name.
    destruct (String.eqb_spec (DnsPeer.service_name p) name) as [He|Hne].
    + split; [discriminate|]. intros H. inversion H; subst. congruence.
    + rewrite IH. split; [now constructor | intros H; now inversion H].
Qed.

(** What [find_peer_by_service_name] points to is a child of that name, and
    the first one. *)
Lemma find_from_some (i j : nat) (children : list DnsPeer.t) (name : QString)
      (p : DnsPeer.t) :
  Browser.find_from i children name = Some (j, p) ->
  (i <= j)%nat /\ children !! (j - i)%nat = Some p /\ DnsPeer.service_name p = name /\
  Forall (fun q => DnsPeer.service_name q <> name) (take (j - i) children).
Proof.
  revert i. induction children as [|q rest IH]; intros i; simpl; [discriminate|].
  unfold DnsPeer.get_service_name.
  destruct (String.eqb_spec (DnsPeer.service_name q) name) as [He|Hne].
  - intros [= <- <-]. rewrite Nat.sub_diag. simpl. repeat split; auto.
  - intros H. destruct (IH _ H) as (Hle & Hl & Hn & Hf).
    replace (j - i)%nat with (S (j - S i)) by lia. simpl.
    split; [lia|]. split; [assumption|]. split; [assumption|]. now constructor.
Qed.

Lemma find_from_app_new (i : nat) (children : list DnsPeer.t) (p : DnsPeer.t) :
  Browser.find_from i children (DnsPeer.service_name p) = None ->
  Browser.find_from i (children ++ [p]) (DnsPeer.service_name p)
  = Some ((i + length children)%nat, p).
Proof.
  revert i. induction children as [|q rest IH]; intros i; simpl.
  - unfold DnsPeer.get_service_name. rewrite String.eqb_refl.
    now rewrite Nat.add_0_r.
  - destruct (String.eqb (DnsPeer.get_service_name q) (DnsPeer.service_name p));
      [discriminate|].
    intros H. rewrite (IH _ H). do 2 f_equal. lia.
Qed.

(** A peer that carries the local service name never comes out of
    [peer_resolved] with an [added]: it is either a refresh or ignored. *)
Lemma self_never_added (local_peer : LocalDnsPeer.t) (peer : DnsPeer.t) (c : Browser.t) :
  DnsPeer.service_name peer = LocalDnsPeer.service_name local_peer ->
  count_added (snd (Browser.peer_resolved local_peer peer c)) = 0%nat.
Proof.
  intros Hname. unfold Browser.peer_resolved.
  destruct (Browser.find_peer_by_service_name c (DnsPeer.get_service_name peer))
    as [[i p]|].
  - unfold DnsPeer.set_hostname, DnsPeer.set_port.
    destruct (negb _); simpl; destruct (negb _); reflexivity.
  - unfold LocalDnsPeer.get_service_name, DnsPeer.get_service_name.
    rewrite Hname, String.eqb_refl. reflexivity.
Qed.

Lemma self_ignored (local_peer : LocalDnsPeer.t) (peer : DnsPeer.t) (c : Browser.t) :
  DnsPeer.service_name peer = LocalDnsPeer.service_name local_peer ->
  Browser.find_peer_by_service_name c (DnsPeer.service_name peer) = None ->
  Browser.peer_resolved local_peer peer c
  = (c, [Message QtDebugMsg "Browser: ignoring" (DnsPeer.service_name peer)]).
Proof.
  intros Hname Hfind. unfold Browser.peer_resolved, DnsPeer.get_service_name.
  rewrite Hfind. unfold LocalDnsPeer.get_service_name.
  now rewrite Hname, String.eqb_refl.
Qed.

(** The name of the Resolver's peer is fixed at construction. *)
Lemma resolver_callback_keeps_name (error_code : Error) (hostname : QString)
      (port : Resolver.uint16_be) (res : Resolver.t) :
  DnsPeer.service_name (Resolver.peer (fst (Resolver.resolver_callback
                                              error_code hostname port res)))
  = DnsPeer.service_name (Resolver.peer res).
Proof.
  unfold Resolver.resolver_callback.
  destruct (DnsSocket.has_error error_code); [reflexivity|].
  unfold DnsPeer.set_port, DnsPeer.set_hostname.
  destruct (negb _); simpl; destruct (negb _); reflexivity.
Qed.

(** A successful [resolver_callback] emits [peer_resolved] last, and only
    signals of the peer before it. *)
Lemma resolver_callback_success (hostname : QString) (port : Resolver.uint16_be)
      (res : Resolver.t) :
  exists res' changed,
    Resolver.resolver_callback kDNSServiceErr_NoError hostname port res
    = (res', changed ++ [Resolver_peer_resolved (Resolver.this res)
                           (DnsPeer.this (Resolver.peer res))]) /\
    Forall (fun e => e = DnsPeer_port_changed (DnsPeer.this (Resolver.peer res)) \/
                     e = DnsPeer_hostname_changed (DnsPeer.this (Resolver.peer res)))
           changed /\
    Resolver.peer res'
    = DnsPeer.mk (DnsPeer.this (Resolver.peer res))
                 (DnsPeer.service_name (Resolver.peer res))
                 hostname (Resolver.qFromBigEndian port)
                 (DnsPeer.deleteLater (Resolver.peer res)).
Proof.
  unfold Resolver.resolver_callback, DnsSocket.has_error.
  change (negb (kDNSServiceErr_NoError =? kDNSServiceErr_NoError)) with false.
  cbv iota. unfold DnsPeer.set_port, DnsPeer.set_hostname.
  destruct res as [sock [this name host prt dl]].
  cbn [Resolver.peer Resolver.socket DnsPeer.port DnsPeer.hostname DnsPeer.this
       DnsPeer.service_name DnsPeer.deleteLater].
  destruct (Z.eqb_spec prt (Resolver.qFromBigEndian port)) as [->|Hp];
    cbn [negb DnsPeer.hostname];
    destruct (String.eqb_spec host hostname) as [->|Hh]; cbn; eexists.
  - exists []. repeat split. constructor.
  - exists [DnsPeer_hostname_changed this]. repeat split. forall_signals.
  - exists [DnsPeer_port_changed this]. repeat split. forall_signals.
  - exists [DnsPeer_port_changed this; DnsPeer_hostname_changed this].
    repeat split. forall_signals.
Qed.

End BrowserFacts.

(** ** Resolver results reaching the Browser *)

Section Resolution.

Import Discovery.

Lemma count_added_app (t1 t2 : list Effect) :
  count_added (t1 ++ t2) = (count_added t1 + count_added t2)%nat.
Proof. unfold count_added. now rewrite List.filter_app, length_app. Qed.

Lemma count_added_changed (this : ObjId) (changed : list Effect) :
  Forall (fun e => e = DnsPeer_port_changed this \/ e = DnsPeer_hostname_changed this)
         changed ->
  count_added changed = 0%nat.
Proof.
  induction 1 as [|e l [-> | ->] _ IH]; [reflexivity | exact IH | exact IH].
Qed.

Lemma route_changed (local_peer : LocalDnsPeer.t) (res : Resolver.t) (this : ObjId)
      (changed rest : list Effect) (c : Browser.t) :
  Forall (fun e => e = DnsPeer_port_changed this \/ e = DnsPeer_hostname_changed this)
         changed ->
  Browser.route local_peer res (changed ++ rest) c
  = (fst (Browser.route local_peer res rest c),
     changed ++ snd (Browser.route local_peer res rest c)).
Proof.
  induction 1 as [|e l [-> | ->] _ IH]; simpl.
  - now destruct (Browser.route local_peer res rest c).
  - rewrite IH. reflexivity.
  - rewrite IH. reflexivity.
Qed.

(** A successful result of the Resolver at [r]: its peer gets the hostname
    and the port in host byte order, and [peer_resolved] runs on it. *)
Lemma on_resolver_callback_success (local_peer : LocalDnsPeer.t) (r : ObjId)
      (res : Resolver.t) (hostname : QString) (port : Resolver.uint16_be)
      (c : Browser.t) :
  Browser.resolvers c !! r = Some res ->
  exists res' changed,
    let peer := DnsPeer.mk (DnsPeer.this (Resolver.peer res))
                           (DnsPeer.service_name (Resolver.peer res))
                           hostname (Resolver.qFromBigEndian port)
                           (DnsPeer.deleteLater (Resolver.peer res)) in
    let slot := Browser.peer_resolved local_peer peer
                  (Browser.mk (Browser.socket c) (Browser.dns_peers c)
                              (<[r := res']> (Browser.resolvers c))) in
    Resolver.peer res' = peer /\
    count_added changed = 0%nat /\
    Browser.on_resolver_callback local_peer r kDNSServiceErr_NoError hostname port c
    = (fst slot,
       changed ++ Resolver_peer_resolved (Resolver.this res) (DnsPeer.this peer)
               :: snd slot).
Proof.
  intros Hres. unfold Browser.on_resolver_callback. rewrite Hres.
  destruct (resolver_callback_success hostname port res)
    as (res' & changed & -> & Hchanged & Hpeer).
  exists res', changed. cbv zeta. split; [exact Hpeer|].
  split; [eapply count_added_changed; exact Hchanged|].
  rewrite (route_changed _ _ _ _ _ _ Hchanged). simpl. rewrite Hpeer.
  destruct (Browser.peer_resolved _ _ _) as [c' slot_trace]. simpl.
  now rewrite app_nil_r.
Qed.

(** C1: in a Browser whose local peer has the accepted service name
    [alice@host1] and which tracks no peer of that name, a peer named
    [alice@host1] handed to [peer_resolved] is ignored: the Browser is left
    as it is and only the debug line is written. So the completion of a
    Resolver for that name leaves the tracked peers alone and the trace has no
    [added] in it. *)
Theorem self_discovery_is_discarded
        (local_peer : LocalDnsPeer.t) (c : Browser.t) (r : ObjId) (res : Resolver.t)
        (hostname : QString) (port : Resolver.uint16_be) :
  LocalDnsPeer.service_name local_peer = "alice@host1" ->
  Browser.find_peer_by_service_name c "alice@host1" = None ->
  Browser.resolvers c !! r = Some res ->
  DnsPeer.service_name (Resolver.peer res) = "alice@host1" ->
  (forall peer : DnsPeer.t,
      DnsPeer.service_name peer = "alice@host1" ->
      Browser.peer_resolved local_peer peer c
      = (c, [Message QtDebugMsg "Browser: ignoring" "alice@host1"])) /\
  let result :=
    Browser.on_resolver_callback local_peer r kDNSServiceErr_NoError hostname port c in
  Browser.dns_peers (fst result) = Browser.dns_peers c /\
  Browser.socket (fst result) = Browser.socket c /\
  count_added (snd result) = 0%nat /\
  In (Message QtDebugMsg "Browser: ignoring" "alice@host1") (snd result).
Proof.
  intros Hlocal Hfind Hres Hname. split.
  - intros peer Hpeer.
    rewrite self_ignored; [now rewrite Hpeer | congruence | now rewrite Hpeer].
  - destruct (on_resolver_callback_success local_peer r res hostname port c Hres)
      as (res' & changed & _ & Hcount & ->).
    cbv zeta. rewrite self_ignored.
    + cbn [fst snd Browser.dns_peers Browser.socket DnsPeer.service_name].
      repeat split. 
      * rewrite count_added_app, Hcount. now rewrite Hname.
      * apply in_or_app. right. right. left. now rewrite Hname.
    + cbn. congruence.
    + cbn. unfold Browser.find_peer_by_service_name in *. cbn. now rewrite Hname.
Qed.

Lemma self_discovery_is_discarded_witness :
  count_added (snd (Browser.on_resolver_callback
                      Sample.alice 11%nat kDNSServiceErr_NoError
                      "host1.local" Sample.port_4242 Sample.resolving_alice)) = 0%nat.
Proof.
  refine (proj1 (proj2 (proj2 (proj2
    (self_discovery_is_discarded Sample.alice Sample.resolving_alice 11%nat
       Sample.alice_resolver "host1.local" Sample.port_4242
       eq_refl eq_refl _ eq_refl))))).
  apply lookup_singleton_eq.
Defined.

End Resolution.

(** ** Peers appearing, refreshed and disappearing *)

Section PeerSet.

Import Discovery.

Lemma set_hostname_fst (new_hostname : QString) (p : DnsPeer.t) :
  fst (DnsPeer.set_hostname new_hostname p)
  = DnsPeer.mk (DnsPeer.this p) (DnsPeer.service_name p) new_hostname
               (DnsPeer.port p) (DnsPeer.deleteLater p).
Proof.
  unfold DnsPeer.set_hostname.
  destruct (String.eqb_spec (DnsPeer.hostname p) new_hostname) as [<-|]; [|reflexivity].
  now destruct p.
Qed.

Lemma set_port_fst (new_port : Z) (p : DnsPeer.t) :
  fst (DnsPeer.set_port new_port p)
  = DnsPeer.mk (DnsPeer.this p) (DnsPeer.service_name p) (DnsPeer.hostname p)
               new_port (DnsPeer.deleteLater p).
Proof.
  unfold DnsPeer.set_port.
  destruct (Z.eqb_spec (DnsPeer.port p) new_port) as [<-|]; [|reflexivity].
  now destruct p.
Qed.

Lemma setters_add_nothing (new_hostname : QString) (new_port : Z) (p q : DnsPeer.t) :
  count_added (snd (DnsPeer.set_hostname new_hostname p)
               ++ snd (DnsPeer.set_port new_port q)) = 0%nat.
Proof.
  unfold DnsPeer.set_hostname, DnsPeer.set_port.
  destruct (negb _); destruct (negb _); reflexivity.
Qed.

(** [peer_resolved] for a name that is tracked: the child found takes the
    hostname and the port, where it is, and no [added] is emitted. *)
Lemma peer_resolved_tracked (local_peer : LocalDnsPeer.t) (peer p : DnsPeer.t)
      (i : nat) (c : Browser.t) :
  Browser.find_peer_by_service_name c (DnsPeer.service_name peer) = Some (i, p) ->
  fst (Browser.peer_resolved local_peer peer c)
  = Browser.mk (Browser.socket c)
               (<[i := DnsPeer.mk (DnsPeer.this p) (DnsPeer.service_name p)
                                  (DnsPeer.hostname peer) (DnsPeer.port peer)
                                  (DnsPeer.deleteLater p)]> (Browser.dns_peers c))
               (Browser.resolvers c) /\
  count_added (snd (Browser.peer_resolved local_peer peer c)) = 0%nat.
Proof.
  intros Hfind. unfold Browser.peer_resolved, DnsPeer.get_service_name. rewrite Hfind.
  unfold DnsPeer.get_hostname, DnsPeer.get_port.
  pose proof (set_hostname_fst (DnsPeer.hostname peer) p) as Hh.
  destruct (DnsPeer.set_hostname (DnsPeer.hostname peer) p) as [p1 t1] eqn:E1.
  pose proof (set_port_fst (DnsPeer.port peer) p1) as Hp.
  pose proof (setters_add_nothing (DnsPeer.hostname peer) (DnsPeer.port peer) p p1) as Hc.
  rewrite E1 in Hc.
  destruct (DnsPeer.set_port (DnsPeer.port peer) p1) as [p2 t2] eqn:E2.
  simpl in *. subst. split; [reflexivity | exact Hc].
Qed.

(** [peer_resolved] for a name that is neither tracked nor the local one:
    the peer becomes the last child and [added] is emitted for it. *)
Lemma peer_resolved_new (local_peer : LocalDnsPeer.t) (peer : DnsPeer.t) (c : Browser.t) :
  Browser.find_peer_by_service_name c (DnsPeer.service_name peer) = None ->
  LocalDnsPeer.service_name local_peer <> DnsPeer.service_name peer ->
  Browser.peer_resolved local_peer peer c
  = (Browser.mk (Browser.socket c) (Browser.dns_peers c ++ [peer]) (Browser.resolvers c),
     [Message QtDebugMsg "Browser: adding" (DnsPeer.service_name peer);
      Browser_added (DnsPeer.this peer)]).
Proof.
  intros Hfind Hne. unfold Browser.peer_resolved, DnsPeer.get_service_name.
  rewrite Hfind. unfold LocalDnsPeer.get_service_name.
  now rewrite (proj2 (String.eqb_neq _ _) Hne).
Qed.

(** A peer-appeared notification builds a Resolver for the name and, when the
    resolve query starts, leaves it among the children. *)
Lemma appeared_builds_resolver (env : Resolver.Env) (flags : Z) (name : QString)
      (c : Browser.t) :
  Z.land flags kDNSServiceFlagsAdd <> 0 ->
  Resolver.query_err env = kDNSServiceErr_NoError ->
  Resolver.sock_fd env <> -1 ->
  Browser.browser_callback env flags kDNSServiceErr_NoError name c
  = Returns (Browser.mk (Browser.socket c) (Browser.dns_peers c)
               (<[Resolver.resolver_addr env :=
                    Resolver.mk (DnsSocket.new (Resolver.resolver_addr env))
                                (DnsPeer.new (Resolver.peer_addr env) name
                                             (Resolver.uninitialised_port env))]>
                  (Browser.resolvers c)))
            [].
Proof.
  intros Hflags Herr Hfd. unfold Browser.browser_callback.
  change (DnsSocket.has_error kDNSServiceErr_NoError) with false. cbv iota.
  rewrite (proj2 (Z.eqb_neq _ _) Hflags). cbn [negb].
  unfold Resolver.new, DnsSocket.init_with, DnsSocket.has_error.
  rewrite Herr. change (negb (kDNSServiceErr_NoError =? kDNSServiceErr_NoError)) with false.
  cbv iota. rewrite (proj2 (Z.eqb_neq _ _) Hfd). reflexivity.
Qed.

(** Replace the successful result of a Resolver just built by what
    [on_resolver_callback_success] says of it. *)
Ltac resolver_succeeds res changed Hcount :=
  match goal with
  | |- context [Browser.on_resolver_callback ?lp ?r _ ?h ?p
                  (Browser.mk ?s ?d (<[?r := ?x]> ?m))] =>
      destruct (on_resolver_callback_success lp r x h p
                  (Browser.mk s d (<[r := x]> m)) (lookup_insert_eq m r x))
        as (res & changed & _ & Hcount & ->)
  end.

(** C5, as the claim has it, fails at the local service name: the first
    notification and resolution for [alice@host1] in the Browser of
    [alice@host1] gives no [added] at all. *)
Lemma first_resolution_of_self_adds_nothing :
  exists c trace,
    System.appeared_then_resolved Sample.first_env kDNSServiceFlagsAdd "alice@host1"
                                  "host1.local" Sample.port_4242
                                  Sample.alice Sample.idle_browser
    = Returns c trace /\
    Browser.find_peer_by_service_name Sample.idle_browser "alice@host1" = None /\
    count_added trace = 0%nat /\ count_added trace <> 1%nat /\
    Browser.dns_peers c = [].
Proof.
  eexists. eexists. split; [vm_compute; reflexivity|].
  repeat split. discriminate.
Qed.

(** C5, amended: for a service name that is not the local accepted one and
    is not tracked yet, the first peer-appeared notification followed by a
    successful resolution emits exactly one [added], for the new peer, which
    becomes the last tracked entry. A second notification for the same name
    followed by a successful resolution emits no [added]: the entry tracked
    since the first one, the same object at the same place, takes the new
    hostname and the new port (a DnsPeer has no address field). *)
Theorem added_once_then_refreshed
        (local_peer : LocalDnsPeer.t) (c : Browser.t) (env1 env2 : Resolver.Env)
        (flags1 flags2 : Z) (name : QString)
        (hostname1 hostname2 : QString) (port1 port2 : Resolver.uint16_be) :
  Z.land flags1 kDNSServiceFlagsAdd <> 0 ->
  Z.land flags2 kDNSServiceFlagsAdd <> 0 ->
  Resolver.query_err env1 = kDNSServiceErr_NoError -> Resolver.sock_fd env1 <> -1 ->
  Resolver.query_err env2 = kDNSServiceErr_NoError -> Resolver.sock_fd env2 <> -1 ->
  Browser.find_peer_by_service_name c name = None ->
  LocalDnsPeer.service_name local_peer <> name ->
  exists c1 trace1 c2 trace2,
    System.appeared_then_resolved env1 flags1 name hostname1 port1 local_peer c
    = Returns c1 trace1 /\
    count_added trace1 = 1%nat /\
    In (Browser_added (Resolver.peer_addr env1)) trace1 /\
    Browser.dns_peers c1
    = Browser.dns_peers c ++
      [DnsPeer.mk (Resolver.peer_addr env1) name hostname1
                  (Resolver.qFromBigEndian port1) false] /\
    System.appeared_then_resolved env2 flags2 name hostname2 port2 local_peer c1
    = Returns c2 trace2 /\
    count_added trace2 = 0%nat /\
    Browser.dns_peers c2
    = Browser.dns_peers c ++
      [DnsPeer.mk (Resolver.peer_addr env1) name hostname2
                  (Resolver.qFromBigEndian port2) false].
Proof.
  intros Hf1 Hf2 He1 Hd1 He2 Hd2 Hfind Hlocal.
  unfold System.appeared_then_resolved.
  rewrite (appeared_builds_resolver env1 flags1 name c Hf1 He1 Hd1).
  resolver_succeeds res1 changed1 Hcount1.
  cbv zeta. cbn [Resolver.peer DnsPeer.new DnsPeer.this DnsPeer.service_name
                 DnsPeer.deleteLater Resolver.this Resolver.socket DnsSocket.new
                 DnsSocket.this Browser.socket Browser.dns_peers Browser.resolvers].
  rewrite peer_resolved_new by (cbn; assumption).
  cbn [fst snd Browser.socket Browser.dns_peers Browser.resolvers DnsPeer.this
       DnsPeer.service_name].
  set (p1 := DnsPeer.mk (Resolver.peer_addr env1) name hostname1
                        (Resolver.qFromBigEndian port1) false).
  set (c1 := Browser.mk _ (Browser.dns_peers c ++ [p1]) _).
  exists c1. eexists.
  rewrite (appeared_builds_resolver env2 flags2 name c1 Hf2 He2 Hd2).
  resolver_succeeds res2 changed2 Hcount2.
  cbv zeta. cbn [Resolver.peer DnsPeer.new DnsPeer.this DnsPeer.service_name
                 DnsPeer.deleteLater Resolver.this Resolver.socket DnsSocket.new
                 DnsSocket.this Browser.socket Browser.dns_peers Browser.resolvers].
  set (p2 := DnsPeer.mk (Resolver.peer_addr env2) name hostname2
                        (Resolver.qFromBigEndian port2) false).
  set (c1' := Browser.mk _ (Browser.dns_peers c1) _).
  assert (Hfind1 : Browser.find_peer_by_service_name c1' (DnsPeer.service_name p2)
                   = Some (length (Browser.dns_peers c), p1)).
  { unfold Browser.find_peer_by_service_name. cbn.
    exact (find_from_app_new 0 (Browser.dns_peers c) p1 Hfind). }
  destruct (peer_resolved_tracked local_peer p2 p1 _ c1' Hfind1) as [Hfst Hsnd].
  destruct (Browser.peer_resolved local_peer p2 c1') as [c2 slot_trace].
  cbn [fst snd] in Hfst, Hsnd. subst c2.
  do 2 eexists. split; [reflexivity|].
  split; [rewrite app_nil_l, count_added_app, Hcount1; reflexivity|].
  split; [rewrite app_nil_l; apply in_or_app; right; right; right; now left|].
  split; [reflexivity|]. split; [reflexivity|].
  split; [rewrite app_nil_l, count_added_app, Hcount2; cbn; exact Hsnd|].
  cbn [Browser.dns_peers c1' c1].
  rewrite insert_app_r_alt by lia. rewrite Nat.sub_diag. reflexivity.
Qed.

End PeerSet.

Section PeerSetScenarios.

Import Discovery.

Lemma added_once_then_refreshed_witness :
  exists c1 trace1 c2 trace2,
    System.appeared_then_resolved Sample.first_env kDNSServiceFlagsAdd "carol@h3"
                                  "h3.local" Sample.port_4242
                                  Sample.alice Sample.idle_browser
    = Returns c1 trace1 /\
    count_added trace1 = 1%nat /\
    In (Browser_added 12%nat) trace1 /\
    Browser.dns_peers c1 = [DnsPeer.mk 12%nat "carol@h3" "h3.local" 4242 false] /\
    System.appeared_then_resolved Sample.second_env kDNSServiceFlagsAdd "carol@h3"
                                  "carol.lan" (16, 147) Sample.alice c1
    = Returns c2 trace2 /\
    count_added trace2 = 0%nat /\
    Browser.dns_peers c2 = [DnsPeer.mk 12%nat "carol@h3" "carol.lan" 4243 false].
Proof.
  apply (added_once_then_refreshed
           Sample.alice Sample.idle_browser Sample.first_env Sample.second_env
           kDNSServiceFlagsAdd kDNSServiceFlagsAdd "carol@h3"
           "h3.local" "carol.lan" Sample.port_4242 (16, 147));
    vm_compute; (reflexivity || discriminate).
Defined.

(** The scenario of the specification: [carol@h3] appears and is resolved to
    [h3.local], port 4242. *)
Example carol_is_added :
  exists c,
    System.appeared_then_resolved Sample.first_env kDNSServiceFlagsAdd "carol@h3"
                                  "h3.local" Sample.port_4242
                                  Sample.alice Sample.idle_browser
    = Returns c [DnsPeer_port_changed 12%nat; DnsPeer_hostname_changed 12%nat;
                 Resolver_peer_resolved 11%nat 12%nat;
                 Message QtDebugMsg "Browser: adding" "carol@h3";
                 Browser_added 12%nat] /\
    Browser.dns_peers c = [Sample.carol] /\
    DnsPeer.get_username Sample.carol = "carol".
Proof. eexists. split; [vm_compute; reflexivity|]. split; reflexivity. Qed.

(** C6: a peer-disappeared notification (no error, the add flag clear) for a
    name without tracked entry changes nothing. In the revision with DnsPeer
    objects the Browser is left as it is and nothing is emitted or logged
    (that Browser has no [removed] signal at all). In the earlier revision
    the set of discovered names and the Browser are left as they are and
    the only thing that may show is the warning that the peer does not
    exist: no [removed], no error. *)
Theorem unknown_peer_removal_is_noop
        (env : Resolver.Env) (legacy_env : Legacy.Resolver.Env) (flags : Z)
        (name : QString) (c : Browser.t) (legacy : Legacy.Browser.t) :
  Z.land flags kDNSServiceFlagsAdd = 0 ->
  Browser.find_peer_by_service_name c name = None ->
  name ∉ Legacy.Browser.discovered_peers legacy ->
  Browser.browser_callback env flags kDNSServiceErr_NoError name c = Returns c [] /\
  exists trace,
    Legacy.Browser.browser_callback legacy_env flags Legacy.kDNSServiceErr_NoError
                                    name legacy
    = Legacy.Returns legacy trace /\
    (trace = [] \/
     trace = [Legacy.Message QtWarningMsg "Browser: remove: peer does not exists:" name]).
Proof.
  intros Hflags Hfind Hnew. split.
  - unfold Browser.browser_callback.
    change (DnsSocket.has_error kDNSServiceErr_NoError) with false. cbv iota.
    rewrite Hflags. cbn [Z.eqb negb]. unfold Browser.peer_removed.
    now rewrite Hfind.
  - unfold Legacy.Browser.browser_callback.
    change (Legacy.kDNSServiceErr_NoError =? Legacy.kDNSServiceErr_NoError) with true.
    cbv iota. change Legacy.kDNSServiceFlagsAdd with kDNSServiceFlagsAdd.
    rewrite Hflags. cbn [Z.eqb negb]. unfold Legacy.Browser.peer_removed.
    destruct (negb _).
    + rewrite bool_decide_eq_false_2 by assumption. eexists. split; [reflexivity|].
      now right.
    + eexists. split; [reflexivity|]. now left.
Qed.

Lemma unknown_peer_removal_is_noop_witness :
  Browser.browser_callback Sample.first_env 0 kDNSServiceErr_NoError "dave@h4"
                           Sample.tracking_carol
  = Returns Sample.tracking_carol [] /\
  exists trace,
    Legacy.Browser.browser_callback (Legacy.Resolver.mkEnv 11%nat 0 0 5) 0
                                    Legacy.kDNSServiceErr_NoError "dave@h4"
                                    (Legacy.Browser.mk {[ "carol" ]} "alice" ∅)
    = Legacy.Returns (Legacy.Browser.mk {[ "carol" ]} "alice" ∅) trace /\
    (trace = [] \/
     trace = [Legacy.Message QtWarningMsg "Browser: remove: peer does not exists:"
                             "dave@h4"]).
Proof.
  apply (unknown_peer_removal_is_noop
           Sample.first_env (Legacy.Resolver.mkEnv 11%nat 0 0 5) 0 "dave@h4"
           Sample.tracking_carol (Legacy.Browser.mk {[ "carol" ]} "alice" ∅)).
  - reflexivity.
  - reflexivity.
  - cbn [Legacy.Browser.discovered_peers].
    apply (proj2 (not_elem_of_singleton (C := gset string) "dave@h4" "carol")).
    discriminate.
Defined.

(** A tracked peer that disappears is marked for deletion and leaves the
    children at the next turn of the event loop. *)
Example carol_disappears :
  exists c,
    Browser.browser_callback Sample.first_env 0 kDNSServiceErr_NoError "carol@h3"
                             Sample.tracking_carol
    = Returns c [] /\
    Browser.dns_peers c = [DnsPeer.do_deleteLater Sample.carol] /\
    Browser.dns_peers (fst (Browser.deferred_delete c)) = [].
Proof. eexists. split; [vm_compute; reflexivity|]. split; reflexivity. Qed.

End PeerSetScenarios.

(** ** The local service name changes *)

Section Rename.

Import Discovery.

(** What [set_service_name] does to the local peer when the name differs:
    the name is stored and [service_name_changed] is emitted first, maybe
    followed by [username_changed]. *)
Lemma set_service_name_changes (new_name : QString) (lp : LocalDnsPeer.t) :
  LocalDnsPeer.service_name lp <> new_name ->
  exists rest,
    LocalDnsPeer.set_service_name new_name lp
    = (LocalDnsPeer.mk (LocalDnsPeer.suffix lp) (LocalDnsPeer.requested_username lp)
                       new_name (LocalDnsPeer.port lp),
       LocalDnsPeer_service_name_changed :: rest) /\
    (rest = [] \/ rest = [LocalDnsPeer_username_changed]).
Proof.
  intros Hne. unfold LocalDnsPeer.set_service_name.
  rewrite (proj2 (String.eqb_neq _ _) Hne). cbn [negb].
  destruct (negb _); eexists; (split; [reflexivity|]); auto.
Qed.

(** When the name is the one already stored nothing happens. *)
Lemma set_service_name_same (lp : LocalDnsPeer.t) :
  LocalDnsPeer.set_service_name (LocalDnsPeer.service_name lp) lp = (lp, []).
Proof.
  unfold LocalDnsPeer.set_service_name. rewrite String.eqb_refl. cbn [negb].
  now rewrite String.eqb_refl.
Qed.

Lemma route_service_name_changed (lp : LocalDnsPeer.t) (rest : list Effect)
      (c : Browser.t) :
  rest = [] \/ rest = [LocalDnsPeer_username_changed] ->
  System.route lp (LocalDnsPeer_service_name_changed :: rest) c
  = Browser.service_name_changed lp c.
Proof. now intros [-> | ->]. Qed.




(** Clearing the name, as [~ServiceRecord] does, is one of these changes. *)
Example clearing_the_name :
  System.set_service_name EmptyString (System.mk Sample.alice Sample.tracking_carol)
  = (System.mk (LocalDnsPeer.mk "host1" "alice" EmptyString 4242) Sample.tracking_carol,
     [LocalDnsPeer_service_name_changed; LocalDnsPeer_username_changed]).
Proof. reflexivity. Qed.

(** The Browser may resolve the record of its own local peer before the
    registration is answered; the accepted name then stops it being
    tracked. *)
Example own_record_stops_being_tracked :
  System.register_callback
    kDNSServiceErr_NoError "carol@h3" Sample.registering
    (System.mk (LocalDnsPeer.mk "h3" "carol" EmptyString 4242) Sample.tracking_carol)
  = (Sample.registering,
     System.mk (LocalDnsPeer.mk "h3" "carol" "carol@h3" 4242)
               (Browser.mk (DnsSocket.new 10%nat) [DnsPeer.do_deleteLater Sample.carol] ∅),
     [Message QtDebugMsg "ServiceRecord: registered" "carol@h3";
      LocalDnsPeer_service_name_changed; LocalDnsPeer_username_changed]).
Proof. reflexivity. Qed.

(** A rename goes through the empty name: the record is torn down, a new
    one is registered. A Resolver for the old name that completes in
    between gets its peer added, and the new name does not remove it. *)
Example old_self_added_during_rename :
  exists s,
    System.run [System.Browse Sample.first_env kDNSServiceFlagsAdd kDNSServiceErr_NoError
                              "alice@host1";
                System.ServiceName EmptyString;
                System.Resolved 11%nat kDNSServiceErr_NoError "host1.local"
                                Sample.port_4242;
                System.ServiceName "alicia@host1";
                System.DeferredDelete]
               (System.mk Sample.alice Sample.idle_browser)
    = Returns s [LocalDnsPeer_service_name_changed; LocalDnsPeer_username_changed;
                 DnsPeer_port_changed 12%nat; DnsPeer_hostname_changed 12%nat;
                 Resolver_peer_resolved 11%nat 12%nat;
                 Message QtDebugMsg "Browser: adding" "alice@host1";
                 Browser_added 12%nat;
                 LocalDnsPeer_service_name_changed; LocalDnsPeer_username_changed;
                 DnsSocket_being_destroyed 11%nat EmptyString] /\
    Browser.dns_peers (System.browser s) = [Sample.old_self].
Proof. eexists. split; [vm_compute; reflexivity | reflexivity]. Qed.

End Rename.

(** ** Registration *)

Section Registration.

Import Discovery.




(** The same happens when the facility cuts a long name before its ['@']:
    of the seventy characters requested the accepted name keeps sixty-three,
    and they are its username. *)
Example accepted_username_differs_after_truncation :
  LocalDnsPeer.get_username
    (snd (fst (ServiceRecord.register_callback
                 kDNSServiceErr_NoError
                 "uuuuuuuuuuuuuuuuuuuuuuuuuuuuuuuuuuuuuuuuuuuuuuuuuuuuuuuuuuuuuuu"
                 Sample.registering Sample.verbose)))
  <> LocalDnsPeer.requested_username Sample.verbose.
Proof. vm_compute. discriminate. Qed.



(** The scenario of the specification: [bob@h2] is registered unchanged. *)
Example bob_is_registered :
  ServiceRecord.register_callback kDNSServiceErr_NoError "bob@h2" Sample.registering
                                  (LocalDnsPeer.mk "h2" "bob" EmptyString 4242)
  = (Sample.registering, LocalDnsPeer.mk "h2" "bob" "bob@h2" 4242,
     [Message QtDebugMsg "ServiceRecord: registered" "bob@h2";
      LocalDnsPeer_service_name_changed; LocalDnsPeer_username_changed]).
Proof. reflexivity. Qed.

End Registration.

(** ** The hostname lookup of the earlier revision *)

Section HostnameLookup.

Import Legacy.

(** C2, as the claim has it, fails: when the lookup reports success with an
    empty address list, [hostname_resolved] does not return with the Resolver
    marked for deletion, it runs into [qFatal], which ends the process, and
    with it the Browser and every other Resolver: none of the events that
    would follow is handled. *)
Lemma empty_address_list_aborts_the_process :
  error Sample.no_address = NoError /\ addresses Sample.no_address = [] /\
  Resolver.hostname_resolved Sample.no_address Sample.looking_up
  = Aborts [Message QtFatalMsg "QHostInfo returned empty list" EmptyString] /\
  (forall (c : Resolver.t) (trace : list Effect),
      Resolver.hostname_resolved Sample.no_address Sample.looking_up <> Returns c trace) /\
  World.run [World.LookupFinished 1 Sample.no_address;
             World.Resolve 13%nat kDNSServiceErr_NoError "h4.local" (16, 146);
             World.DeferredDelete]
            Sample.world
  = Aborts [QHostInfo_resultsReady 1 11%nat;
            Message QtFatalMsg "QHostInfo returned empty list" EmptyString].
Proof.
  split; [reflexivity|]. split; [reflexivity|]. split; [reflexivity|].
  split; [discriminate|]. vm_compute. reflexivity.
Qed.

(** C2, amended: when the lookup reports success with an empty address list,
    the Resolver logs a fatal message and emits no [peer_complete]; the
    failure is not confined to that Resolver: [qFatal] aborts the process,
    so that nothing that would follow is handled. *)
Theorem empty_address_list_is_fatal
        (host_info : QHostInfo) (c : Resolver.t) (w : World.t) (id : Z)
        (rest : list World.Event) :
  error host_info = NoError ->
  addresses host_info = [] ->
  HostLookup.pending (World.lookups w) !! id = Some (Resolver.this c) ->
  Browser.resolvers (World.browser w) !! Resolver.this c = Some c ->
  Resolver.hostname_resolved host_info c
  = Aborts [Message QtFatalMsg "QHostInfo returned empty list" EmptyString] /\
  World.run (World.LookupFinished id host_info :: rest) w
  = Aborts [QHostInfo_resultsReady id (Resolver.this c);
            Message QtFatalMsg "QHostInfo returned empty list" EmptyString] /\
  World.completed (World.trace_of (World.run (World.LookupFinished id host_info :: rest) w))
  = [].
Proof.
  intros Herror Haddresses Hpending Hresolver.
  assert (Hslot : Resolver.hostname_resolved host_info c
                  = Aborts [Message QtFatalMsg "QHostInfo returned empty list" EmptyString]).
  { unfold Resolver.hostname_resolved. now rewrite Herror, Haddresses. }
  assert (Hrun : World.run (World.LookupFinished id host_info :: rest) w
                 = Aborts [QHostInfo_resultsReady id (Resolver.this c);
                           Message QtFatalMsg "QHostInfo returned empty list"
                                   EmptyString]).
  { cbn [World.run World.handle]. unfold World.lookup_finished.
    now rewrite Hpending, Hresolver, Hslot. }
  split; [exact Hslot|]. split; [exact Hrun|]. now rewrite Hrun.
Qed.

Lemma empty_address_list_is_fatal_witness :
  World.run [World.LookupFinished 1 Sample.no_address; World.DeferredDelete] Sample.world
  = Aborts [QHostInfo_resultsReady 1 11%nat;
            Message QtFatalMsg "QHostInfo returned empty list" EmptyString].
Proof.
  refine (proj1 (proj2
    (empty_address_list_is_fatal Sample.no_address Sample.looking_up Sample.world 1
                                 [World.DeferredDelete] eq_refl eq_refl _ _))).
  - reflexivity.
  - reflexivity.
Defined.

(** With an address the Resolver completes: the first address is taken, the
    peer is handed to the Browser, which adds it, and the Resolver is marked
    for deletion. *)
Example carol_is_complete :
  exists w,
    World.run [World.LookupFinished 1 Sample.one_address] Sample.world
    = Returns w [QHostInfo_resultsReady 1 11%nat;
                 Resolver_peer_complete 11%nat
                   (mkPeer "carol" "h3.local" "192.168.1.10" 4242);
                 Browser_added (mkPeer "carol" "h3.local" "192.168.1.10" 4242)] /\
    Browser.resolvers (World.browser w) !! 11%nat
    = Some (Resolver.mk 11%nat (-1) (mkPeer "carol" "h3.local" "192.168.1.10" 4242) true).
Proof. eexists. split; [vm_compute; reflexivity | reflexivity]. Qed.

End HostnameLookup.

(** ** Aborting the lookup of a Resolver that goes away *)

Section Cancellation.

Import Legacy.










(** The identifiers held by the Resolvers come from [lookupHost]: this holds
    in the world a Browser starts in and is kept by whatever happens. *)
Lemma initial_tokens (username : QString) :
  World.tokens_handed_out (World.initial username).
Proof.
  split; [reflexivity|]. intros r res H. cbn in H. now rewrite lookup_empty in H.
Qed.

Lemma route_resolvers (trace : list Effect) (c : Browser.t) :
  Browser.resolvers (fst (World.route trace c)) = Browser.resolvers c.
Proof.
  revert c. induction trace as [|e trace IH]; intros c; [reflexivity|].
  destruct e; simpl;
    try (specialize (IH c); destruct (World.route trace c); exact IH).
  unfold Browser.resolved_peer_added.
  destruct (negb _); [destruct (negb _)|];
    match goal with
    | |- context [World.route trace ?c'] =>
        specialize (IH c'); destruct (World.route trace c'); exact IH
    end.
Qed.

Lemma destroy_resolver_tokens (r : ObjId) (w : World.t) :
  World.tokens_handed_out w -> World.tokens_handed_out (World.destroy_resolver r w).
Proof.
  intros [Hpos Htokens]. unfold World.destroy_resolver.
  destruct (Browser.resolvers (World.browser w) !! r) as [res|]; [|now split].
  assert (Hnext : HostLookup.next_id (Resolver.destructor res (World.lookups w))
                  = HostLookup.next_id (World.lookups w)).
  { unfold Resolver.destructor. now destruct (negb _). }
  split; cbn; rewrite Hnext; [exact Hpos|].
  intros r' res' H. apply lookup_delete_Some in H as [_ H]. now apply (Htokens r').
Qed.

Lemma destroy_some_tokens (keep : ObjId * Resolver.t -> bool)
      (l : list (ObjId * Resolver.t)) (w : World.t) :
  World.tokens_handed_out w ->
  World.tokens_handed_out
    (foldr (fun kv w => if keep kv then World.destroy_resolver (fst kv) w else w) w l).
Proof.
  intros Hw. induction l as [|kv l IH]; [exact Hw|]. simpl.
  destruct (keep kv); [now apply destroy_resolver_tokens | exact IH].
Qed.

Lemma handle_tokens (e : World.Event) (w w' : World.t) (trace : list Effect) :
  World.tokens_handed_out w ->
  World.handle e w = Returns w' trace ->
  World.tokens_handed_out w'.
Proof.
  intros [Hpos Htokens].
  destruct e as [env flags ec name|r ec hostname port|r err|id hi| |]; cbn [World.handle].
  - unfold World.browser_callback, Browser.browser_callback.
    destruct (ec =? _); [|now intros [= <- <-]].
    destruct (negb _).
    + unfold Resolver.new.
      destruct (DnsSocket.fromFunc _ _ _) as [[|] ?|?]; [| |discriminate];
        intros [= <- <-]; (split; [exact Hpos|]); cbn; intros r res H;
        apply lookup_insert_Some in H as [[_ <-]|[_ H]];
        solve [cbn; lia | now apply (Htokens r)].
    + unfold Browser.peer_removed.
      destruct (negb _); [destruct (bool_decide _)|]; now intros [= <- <-].
  - unfold World.resolver_callback.
    destruct (Browser.resolvers (World.browser w) !! r) as [res|] eqn:Hr;
      [|now intros [= <- <-]].
    unfold Resolver.resolver_callback, HostLookup.lookupHost.
    destruct (ec =? _); cbn; intros [= <- <-]; cbn.
    + split; cbn; [lia|]. intros r' res' H.
      apply lookup_insert_Some in H as [[_ <-]|[_ H]]; cbn; [lia|].
      specialize (Htokens r' res' H). lia.
    + split; [exact Hpos|]. cbn. intros r' res' H.
      apply lookup_insert_Some in H as [[_ <-]|[_ H]]; cbn; eauto.
  - destruct (Browser.resolvers (World.browser w) !! r) as [res|] eqn:Hr;
      [|now intros [= <- <-]].
    unfold Resolver.socket_error. intros [= <- <-]. split; [exact Hpos|]. cbn.
    intros r' res' H.
    apply lookup_insert_Some in H as [[_ <-]|[_ H]]; [|now eauto].
    destruct (negb _); cbn; eauto.
  - unfold World.lookup_finished.
    destruct (HostLookup.pending (World.lookups w) !! id) as [receiver|];
      [|now intros [= <- <-]].
    destruct (Browser.resolvers (World.browser w) !! receiver) as [res|] eqn:Hr;
      [|now intros [= <- <-]].
    destruct (Resolver.hostname_resolved hi res) as [res' t|t] eqn:Hslot; [|discriminate].
    pose proof (route_resolvers t (Browser.set_resolver receiver res' (World.browser w)))
      as Hroute.
    destruct (World.route t _) as [c routed]. cbn in Hroute.
    intros [= <- <-]. split; [exact Hpos|]. cbn. rewrite Hroute.
    intros r' res'' H.
    apply lookup_insert_Some in H as [[_ <-]|[_ H]]; [|now eauto].
    unfold Resolver.hostname_resolved in Hslot.
    destruct (error hi); [destruct (addresses hi); [discriminate|]| |];
      injection Hslot as <- _; cbn; lia.
  - intros [= <- <-]. unfold World.deferred_delete.
    apply (destroy_some_tokens (fun kv => Resolver.deleteLater (snd kv))). now split.
  - intros [= <- <-]. unfold World.destroy_browser.
    apply (destroy_some_tokens (fun _ => true)). now split.
Qed.

(** In every world reached from the start, a Resolver whose lookup is under
    way holds an identifier that was handed out. *)
Lemma reached_tokens (username : QString) (events : list World.Event)
      (w : World.t) (trace : list Effect) :
  World.run events (World.initial username) = Returns w trace ->
  World.tokens_handed_out w.
Proof.
  generalize (initial_tokens username). generalize (World.initial username).
  revert trace. induction events as [|e events IH]; intros trace w0 H0; cbn [World.run].
  - now intros [= <- <-].
  - destruct (World.handle e w0) as [w1 t1|t1] eqn:He; [|discriminate].
    destruct (World.run events w1) as [w2 t2|t2] eqn:Hrun; [|discriminate].
    intros [= <- <-]. eapply IH; [|exact Hrun]. eapply handle_tokens; eassumption.
Qed.




(** Had the Resolver stayed, the result would have reached it. *)
Example lookup_reaches_a_live_resolver :
  World.delivered (World.trace_of (World.run [World.LookupFinished 1 Sample.one_address]
                                             Sample.world))
  = [(1, 11%nat)].
Proof. vm_compute. reflexivity. Qed.

End Cancellation.

(** ** Why the new name is enough *)

Section SelfFilter.

Import Discovery.

Lemma untracked_update (lp : LocalDnsPeer.t) (l : list DnsPeer.t) (i : nat)
      (p p' : DnsPeer.t) :
  System.untracked lp l ->
  l !! i = Some p ->
  DnsPeer.service_name p' = DnsPeer.service_name p ->
  DnsPeer.deleteLater p' = DnsPeer.deleteLater p \/ DnsPeer.deleteLater p' = true ->
  System.untracked lp (<[i := p']> l).
Proof.
  intros [Hnodup Hlive] Hi Hname Hflag. split.
  - rewrite list_fmap_insert, Hname, list_insert_id; [exact Hnodup|].
    now rewrite list_lookup_fmap, Hi.
  - intros q Hq Hq_live. apply list_elem_of_lookup in Hq as [j Hj].
    destruct (decide (i = j)) as [<-|Hne].
    + rewrite list_lookup_insert_eq in Hj by (now apply lookup_lt_Some in Hi).
      injection Hj as <-. rewrite Hname. apply Hlive.
      * apply list_elem_of_lookup. now exists i.
      * destruct Hflag as [<-|Htrue]; congruence.
    + rewrite list_lookup_insert_ne in Hj by assumption.
      apply Hlive; [|assumption]. apply list_elem_of_lookup. now exists j.
Qed.

Lemma untracked_append (lp : LocalDnsPeer.t) (l : list DnsPeer.t) (p : DnsPeer.t) :
  System.untracked lp l ->
  Browser.find_from 0 l (DnsPeer.service_name p) = None ->
  DnsPeer.service_name p <> LocalDnsPeer.service_name lp ->
  System.untracked lp (l ++ [p]).
Proof.
  intros [Hnodup Hlive] Hfind Hname. split.
  - rewrite fmap_app. apply NoDup_app. split; [exact Hnodup|]. split.
    + intros x Hx Hxp. apply list_elem_of_singleton in Hxp as ->.
      apply list_elem_of_fmap in Hx as (q & Hq & Hin).
      apply find_from_none in Hfind. rewrite List.Forall_forall in Hfind.
      apply list_elem_of_In in Hin. specialize (Hfind q Hin). congruence.
    + apply NoDup_singleton.
  - intros q Hq Hq_live. apply elem_of_app in Hq as [Hq|Hq]; [now apply Hlive|].
    apply list_elem_of_singleton in Hq as ->. exact Hname.
Qed.

Lemma filter_elem_of (f : DnsPeer.t -> bool) (l : list DnsPeer.t) (p : DnsPeer.t) :
  p ∈ List.filter f l -> p ∈ l.
Proof.
  intros H. apply list_elem_of_In in H. apply List.filter_In in H as [H _].
  now apply list_elem_of_In.
Qed.

Lemma untracked_filter (lp : LocalDnsPeer.t) (f : DnsPeer.t -> bool)
      (l : list DnsPeer.t) :
  System.untracked lp l -> System.untracked lp (List.filter f l).
Proof.
  intros [Hnodup Hlive]. split.
  - clear Hlive. induction l as [|q l IH]; [constructor|].
    cbn [fmap list_fmap] in Hnodup. apply NoDup_cons in Hnodup as [Hq Hnodup].
    simpl. destruct (f q); [|now apply IH].
    cbn [fmap list_fmap]. apply NoDup_cons. split; [|now apply IH].
    intros Hin. apply Hq. apply list_elem_of_fmap in Hin as (q' & -> & Hin).
    apply list_elem_of_fmap. exists q'. split; [reflexivity|].
    now apply filter_elem_of in Hin.
  - intros q Hq. apply Hlive. now apply filter_elem_of in Hq.
Qed.

(** The change of the local name with the Browser's slot: the entry of the
    new name is marked, and no other entry has that name. *)
Lemma untracked_rename (lp lp' : LocalDnsPeer.t) (c : Browser.t) :
  System.untracked lp (Browser.dns_peers c) ->
  System.untracked lp' (Browser.dns_peers (Browser.service_name_changed lp' c)).
Proof.
  intros [Hnodup Hlive]. unfold Browser.service_name_changed, LocalDnsPeer.get_service_name.
  destruct (Browser.find_peer_by_service_name c (LocalDnsPeer.service_name lp'))
    as [[i p]|] eqn:Hfind.
  - unfold Browser.find_peer_by_service_name in Hfind.
    apply find_from_some in Hfind as (_ & Hi & Hname & _). rewrite Nat.sub_0_r in Hi.
    cbn. split.
    + rewrite list_fmap_insert. cbn. rewrite list_insert_id; [exact Hnodup|].
      now rewrite list_lookup_fmap, Hi.
    + intros q Hq Hq_live Hq_name. apply list_elem_of_lookup in Hq as [j Hj].
      destruct (decide (i = j)) as [<-|Hne].
      * rewrite list_lookup_insert_eq in Hj by (now apply lookup_lt_Some in Hi).
        injection Hj as <-. discriminate.
      * rewrite list_lookup_insert_ne in Hj by assumption.
        apply Hne. eapply (NoDup_lookup _ i j); [exact Hnodup| |].
        -- rewrite list_lookup_fmap, Hi. reflexivity.
        -- rewrite list_lookup_fmap, Hj. cbn. congruence.
  - split; [exact Hnodup|]. intros q Hq _.
    unfold Browser.find_peer_by_service_name in Hfind.
    apply find_from_none in Hfind. rewrite List.Forall_forall in Hfind.
    apply Hfind. now apply list_elem_of_In.
Qed.

Lemma untracked_resolved (lp : LocalDnsPeer.t) (peer : DnsPeer.t) (c : Browser.t) :
  System.untracked lp (Browser.dns_peers c) ->
  System.untracked lp (Browser.dns_peers (fst (Browser.peer_resolved lp peer c))).
Proof.
  intros Hinv.
  destruct (Browser.find_peer_by_service_name c (DnsPeer.service_name peer))
    as [[i p]|] eqn:Hfind.
  - rewrite (proj1 (peer_resolved_tracked lp peer p i c Hfind)). cbn.
    unfold Browser.find_peer_by_service_name in Hfind.
    apply find_from_some in Hfind as (_ & Hi & _ & _). rewrite Nat.sub_0_r in Hi.
    eapply untracked_update; [exact Hinv | exact Hi | reflexivity | now left].
  - destruct (String.eqb_spec (LocalDnsPeer.service_name lp) (DnsPeer.service_name peer))
      as [Heq|Hne].
    + rewrite self_ignored by congruence. exact Hinv.
    + rewrite peer_resolved_new by assumption. cbn.
      apply untracked_append; [exact Hinv | exact Hfind | congruence].
Qed.

Lemma untracked_resolver_callback (lp : LocalDnsPeer.t) (r : ObjId) (error_code : Error)
      (hostname : QString) (port : Resolver.uint16_be) (c : Browser.t) :
  System.untracked lp (Browser.dns_peers c) ->
  System.untracked lp (Browser.dns_peers
                  (fst (Browser.on_resolver_callback lp r error_code hostname port c))).
Proof.
  intros Hinv. destruct (Browser.resolvers c !! r) as [res|] eqn:Hres.
  - destruct (Z.eqb_spec error_code kDNSServiceErr_NoError) as [->|Herr].
    + destruct (on_resolver_callback_success lp r res hostname port c Hres)
        as (res' & changed & _ & _ & ->).
      cbv zeta. cbn [fst]. now apply untracked_resolved.
    + unfold Browser.on_resolver_callback, Resolver.resolver_callback,
        DnsSocket.has_error.
      rewrite Hres, (proj2 (Z.eqb_neq _ _) Herr). exact Hinv.
  - unfold Browser.on_resolver_callback. now rewrite Hres.
Qed.

Lemma untracked_browser_callback (lp : LocalDnsPeer.t) (env : Resolver.Env) (flags : Z)
      (error_code : Error) (name : QString) (c c' : Browser.t) (trace : list Effect) :
  System.untracked lp (Browser.dns_peers c) ->
  Browser.browser_callback env flags error_code name c = Returns c' trace ->
  System.untracked lp (Browser.dns_peers c').
Proof.
  intros Hinv. unfold Browser.browser_callback.
  destruct (DnsSocket.has_error error_code); [now intros [= <- <-]|].
  destruct (negb _).
  - destruct (Resolver.new env name); [|discriminate]. now intros [= <- <-].
  - intros [= <- <-]. unfold Browser.peer_removed.
    destruct (Browser.find_peer_by_service_name c name) as [[i p]|] eqn:Hfind;
      [|exact Hinv].
    unfold Browser.find_peer_by_service_name in Hfind.
    apply find_from_some in Hfind as (_ & Hi & _ & _). rewrite Nat.sub_0_r in Hi.
    cbn. eapply untracked_update; [exact Hinv | exact Hi | reflexivity | now right].
Qed.

Lemma handle_self_untracked (e : System.Event) (s s' : System.t) (trace : list Effect) :
  System.self_untracked s ->
  System.handle e s = Returns s' trace ->
  System.self_untracked s'.
Proof.
  unfold System.self_untracked.
  intros Hinv. destruct e as [env flags ec name|r ec hostname port|new_name|];
    cbn [System.handle].
  - unfold System.browser_callback.
    destruct (Browser.browser_callback env flags ec name (System.browser s))
      as [c t|t] eqn:Hcb; [|discriminate].
    intros [= <- <-]. cbn. eapply untracked_browser_callback; eassumption.
  - unfold System.on_resolver_callback.
    pose proof (untracked_resolver_callback (System.local_peer s) r ec hostname port
                                            (System.browser s) Hinv) as H.
    destruct (Browser.on_resolver_callback _ _ _ _ _ _) as [c t].
    intros [= <- <-]. exact H.
  - unfold System.set_service_name.
    destruct (String.eqb_spec (LocalDnsPeer.service_name (System.local_peer s)) new_name)
      as [<-|Hne].
    + rewrite set_service_name_same. intros [= <- <-]. exact Hinv.
    + destruct (set_service_name_changes new_name (System.local_peer s) Hne)
        as (rest & -> & Hrest).
      rewrite (route_service_name_changed _ _ _ Hrest).
      intros [= <- <-]. cbn [System.local_peer System.browser].
      eapply untracked_rename. exact Hinv.
  - unfold System.deferred_delete, Browser.deferred_delete.
    intros [= <- <-]. cbn. now apply untracked_filter.
Qed.

(** From an idle Browser on, no tracked peer that is not marked for deletion
    has the name of the local peer: [peer_resolved] does not add it and
    [service_name_changed] marks it. So at a change of the name, the peers
    that stay are not named as the local peer was, nor as it is now. *)
Lemma reached_self_untracked (lp : LocalDnsPeer.t) (this : ObjId)
      (events : list System.Event) (s : System.t) (trace : list Effect) :
  System.run events (System.mk lp (Browser.mk (DnsSocket.new this) [] ∅))
  = Returns s trace ->
  System.self_untracked s.
Proof.
  assert (H0 : System.self_untracked
                 (System.mk lp (Browser.mk (DnsSocket.new this) [] ∅))).
  { split; [constructor|]. intros p H. cbn in H. now apply elem_of_nil in H. }
  revert H0. generalize (System.mk lp (Browser.mk (DnsSocket.new this) [] ∅)).
  revert trace. induction events as [|e events IH]; intros trace s0 H0; cbn [System.run].
  - now intros [= <- <-].
  - destruct (System.handle e s0) as [s1 t1|t1] eqn:He; [|discriminate].
    destruct (System.run events s1) as [s2 t2|t2] eqn:Hrun; [|discriminate].
    intros [= <- <-]. eapply IH; [|exact Hrun]. eapply handle_self_untracked; eassumption.
Qed.

End SelfFilter.


(** ** Usernames and the local peer *)

Section LocalPeerFacts.

Import Discovery.

Lemma length_append (s t : QString) :
  String.length (s +:+ t) = (String.length s + String.length t)%nat.
Proof. induction s as [|c s IH]; simpl_append; simpl; [reflexivity | now rewrite IH]. Qed.

(** Two strings with the same tail appended are the same. *)
Lemma append_cancel_r (s1 s2 t : QString) : s1 +:+ t = s2 +:+ t -> s1 = s2.
Proof.
  revert s2. induction s1 as [|c s1 IH]; intros [|d s2]; simpl_append; intros H.
  - reflexivity.
  - apply (f_equal String.length) in H. simpl in H. rewrite length_append in H. lia.
  - apply (f_equal String.length) in H. simpl in H. rewrite length_append in H. lia.
  - injection H as -> H. f_equal. now apply IH.
Qed.

Lemma username_of_no_sep (s : QString) : contains "@" s = false -> username_of s = s.
Proof.
  intros Hs. unfold username_of.
  now rewrite (section_single "@" s s (split_no_sep "@" s Hs)).
Qed.

Lemma username_of_prefix (s : QString) : exists rest, s = username_of s +:+ rest.
Proof.
  destruct (contains "@" s) eqn:Hs.
  - destruct (at_last_exists "@" s Hs) as (u & x & -> & Hx).
    rewrite username_of_at_last by assumption.
    destruct u as [|c u]; cbn [isEmpty].
    + exists EmptyString. now rewrite append_empty_r.
    + now exists (String "@" x).
  - rewrite username_of_no_sep by assumption.
    exists EmptyString. now rewrite append_empty_r.
Qed.

Lemma username_of_empty (s : QString) : username_of s = EmptyString <-> s = EmptyString.
Proof.
  destruct (contains "@" s) eqn:Hs.
  - destruct (at_last_exists "@" s Hs) as (u & x & -> & Hx).
    rewrite username_of_at_last by assumption.
    destruct u as [|c u]; cbn [isEmpty]; simpl_append; split; discriminate.
  - now rewrite username_of_no_sep by assumption.
Qed.

(** X1: the username of a service name is the start of that name, and it is
    empty only for the empty name: a peer that has a name never shows with a
    blank username. *)
Theorem username_is_nonempty_prefix (s : QString) :
  (exists rest, s = username_of s +:+ rest) /\
  (username_of s = EmptyString <-> s = EmptyString).
Proof. split; [apply username_of_prefix | apply username_of_empty]. Qed.

(** X2: [set_requested_username] emits [requested_service_name_changed]
    exactly when the username it is given differs from the stored one, and
    then the requested service name does change, as the comment in the
    source promises; with the stored username nothing happens. *)
Theorem requested_name_changes_with_username (new_username : QString)
        (lp : LocalDnsPeer.t) :
  (new_username <> LocalDnsPeer.get_requested_username lp ->
   snd (LocalDnsPeer.set_requested_username new_username lp)
   = [LocalDnsPeer_requested_service_name_changed] /\
   LocalDnsPeer.get_requested_username
     (fst (LocalDnsPeer.set_requested_username new_username lp)) = new_username /\
   LocalDnsPeer.get_requested_service_name
     (fst (LocalDnsPeer.set_requested_username new_username lp))
   <> LocalDnsPeer.get_requested_service_name lp /\
   LocalDnsPeer.service_name (fst (LocalDnsPeer.set_requested_username new_username lp))
   = LocalDnsPeer.service_name lp) /\
  (new_username = LocalDnsPeer.get_requested_username lp ->
   LocalDnsPeer.set_requested_username new_username lp = (lp, [])).
Proof.
  unfold LocalDnsPeer.set_requested_username, LocalDnsPeer.get_requested_username.
  destruct (String.eqb_spec (LocalDnsPeer.requested_username lp) new_username)
    as [Heq|Hne]; cbn [negb]; split; intros H; try congruence.
  repeat split.
  unfold LocalDnsPeer.get_requested_service_name, LocalDnsPeer.get_requested_username,
    service_name_of.
  cbn [fst LocalDnsPeer.requested_username LocalDnsPeer.suffix].
  rewrite !arg2_pattern. intros Heq. apply append_cancel_r in Heq. congruence.
Qed.

(** X3: when the accepted service name changes in its suffix only, the
    username keeps and [set_service_name] emits [service_name_changed] alone;
    when the (non-empty) username part changes, [username_changed] follows
    it. *)
Theorem username_changed_only_with_username
        (lp : LocalDnsPeer.t) (u u' x x' : QString) :
  LocalDnsPeer.service_name lp = u +:+ String "@" x ->
  u <> EmptyString -> u' <> EmptyString ->
  contains "@" x = false -> contains "@" x' = false ->
  u +:+ String "@" x <> u' +:+ String "@" x' ->
  snd (LocalDnsPeer.set_service_name (u' +:+ String "@" x') lp)
  = if String.eqb u u'
    then [LocalDnsPeer_service_name_changed]
    else [LocalDnsPeer_service_name_changed; LocalDnsPeer_username_changed].
Proof.
  intros Hname Hu Hu' Hx Hx' Hne. unfold LocalDnsPeer.set_service_name.
  rewrite Hname, (proj2 (String.eqb_neq _ _) Hne). cbn [negb].
  unfold LocalDnsPeer.get_username. cbn [LocalDnsPeer.service_name].
  rewrite Hname, !username_of_at_last by assumption.
  destruct u as [|c u]; [congruence|]. destruct u' as [|c' u']; [congruence|].
  cbn [isEmpty]. now destruct (String.eqb (String c u) (String c' u')).
Qed.

Lemma username_changed_only_with_username_witness :
  snd (LocalDnsPeer.set_service_name "alice@host2" Sample.alice)
  = [LocalDnsPeer_service_name_changed].
Proof.
  apply (username_changed_only_with_username Sample.alice "alice" "alice" "host1" "host2");
    solve [reflexivity | discriminate].
Defined.

(** X4: [~ServiceRecord] leaves the local peer without accepted name and
    without username, whatever had been accepted, and does not touch the
    requested username; [service_name_changed] and [username_changed] are
    emitted exactly when a name had been accepted, and the last thing shown
    is [being_destroyed] with the record's error message. *)
Theorem record_destruction_clears_the_name (c : ServiceRecord.t) (lp : LocalDnsPeer.t) :
  LocalDnsPeer.service_name (fst (ServiceRecord.destructor c lp)) = EmptyString /\
  LocalDnsPeer.get_username (fst (ServiceRecord.destructor c lp)) = EmptyString /\
  LocalDnsPeer.requested_username (fst (ServiceRecord.destructor c lp))
  = LocalDnsPeer.requested_username lp /\
  (In LocalDnsPeer_service_name_changed (snd (ServiceRecord.destructor c lp)) <->
   LocalDnsPeer.service_name lp <> EmptyString) /\
  (In LocalDnsPeer_username_changed (snd (ServiceRecord.destructor c lp)) <->
   LocalDnsPeer.service_name lp <> EmptyString) /\
  List.last (snd (ServiceRecord.destructor c lp)) LocalDnsPeer_username_changed
  = DnsSocket_being_destroyed (DnsSocket.this c) (DnsSocket.error_msg c).
Proof.
  assert (Hd : ServiceRecord.destructor c lp
               = (LocalDnsPeer.mk (LocalDnsPeer.suffix lp)
                                  (LocalDnsPeer.requested_username lp)
                                  EmptyString (LocalDnsPeer.port lp),
                  Message QtDebugMsg "ServiceRecord: shutting down" EmptyString
                    :: (if isEmpty (LocalDnsPeer.service_name lp) then []
                        else [LocalDnsPeer_service_name_changed;
                              LocalDnsPeer_username_changed])
                    ++ DnsSocket.destructor c)).
  { unfold ServiceRecord.destructor, LocalDnsPeer.set_service_name,
      LocalDnsPeer.get_username.
    destruct lp as [sfx requested [|ch name] prt]; [reflexivity|].
    cbn [LocalDnsPeer.service_name LocalDnsPeer.suffix LocalDnsPeer.requested_username
         LocalDnsPeer.port isEmpty].
    change (String.eqb (String ch name) EmptyString) with false. cbn [negb].
    cbn [LocalDnsPeer.service_name]. change (username_of EmptyString) with EmptyString.
    assert (Hu : username_of (String ch name) <> EmptyString).
    { intros H. apply (proj1 (username_of_empty _)) in H. discriminate. }
    rewrite (proj2 (String.eqb_neq _ _) Hu). reflexivity. }
  rewrite Hd. cbn [fst snd LocalDnsPeer.service_name LocalDnsPeer.requested_username].
  unfold LocalDnsPeer.get_username. cbn [LocalDnsPeer.service_name].
  unfold DnsSocket.destructor.
  destruct (LocalDnsPeer.service_name lp) as [|ch name]; cbn [isEmpty];
    (split; [reflexivity|]); (split; [reflexivity|]); (split; [reflexivity|]).
  - split; [|split; [|reflexivity]]; (split; [|congruence]);
      intros [H|[H|[]]]; discriminate.
  - split; [|split; [|reflexivity]]; (split; [discriminate|]); intros _; cbn; auto.
Qed.

End LocalPeerFacts.

(** ** Failures and ports *)

Section SocketFacts.

Import Discovery.

Lemma make_error_string_not_empty (e : Error) : isEmpty (DnsSocket.make_error_string e) = false.
Proof.
  unfold DnsSocket.make_error_string.
  repeat match goal with
         | |- context [if ?b then _ else _] => destruct b; [reflexivity|]
         end.
  reflexivity.
Qed.

(** X5: every failure carries a message that is not empty, whatever the
    error code, for the socket and for its three subclasses. So the Browser
    reports each failed Resolver with a warning when it is destroyed, while a
    Resolver that never failed goes with an empty message and no warning. *)
Theorem failures_carry_a_message (e : Error) :
  DnsSocket.make_error_string e <> EmptyString /\
  ServiceRecord.make_error_string e <> EmptyString /\
  Resolver.make_error_string e <> EmptyString /\
  Browser.make_error_string e <> EmptyString /\
  (forall res : Resolver.t,
      Browser.resolver_destroyed (Resolver.failure e res)
      = [DnsSocket_being_destroyed (Resolver.this res) (Resolver.make_error_string e);
         Message QtWarningMsg "Browser: Resolver failure" (Resolver.make_error_string e)]) /\
  (forall (this : ObjId) (peer : DnsPeer.t),
      Browser.resolver_destroyed (Resolver.mk (DnsSocket.new this) peer)
      = [DnsSocket_being_destroyed this EmptyString]).
Proof.
  split; [|split; [|split; [|split; [|split]]]].
  - pose proof (make_error_string_not_empty e) as H.
    destruct (DnsSocket.make_error_string e); [discriminate H | discriminate].
  - cbn. discriminate.
  - cbn. discriminate.
  - cbn. discriminate.
  - intros res. unfold Browser.resolver_destroyed, Resolver.failure, DnsSocket.failure,
      DnsSocket.destructor.
    cbn [Resolver.socket DnsSocket.error_msg DnsSocket.this].
    assert (Hmsg : isEmpty (Resolver.make_error_string e) = false) by reflexivity.
    rewrite Hmsg. reflexivity.
  - reflexivity.
Qed.

Lemma testbit_255 (n : Z) : 0 <= n -> Z.testbit 255 n = (n <? 8).
Proof.
  intros Hn. change 255 with (Z.ones 8).
  destruct (Z.ltb_spec n 8).
  - apply Z.ones_spec_low. lia.
  - apply Z.ones_spec_high. lia.
Qed.

Lemma small_bits (x n : Z) : 0 <= x < 65536 -> 16 <= n -> Z.testbit x n = false.
Proof.
  intros Hx Hn. destruct (Z.eq_dec x 0) as [->|Hx0]; [apply Z.bits_0|].
  apply Z.bits_above_log2; [lia|].
  apply Z.lt_le_trans with 16; [|exact Hn].
  apply Z.log2_lt_pow2; [lia|]. change (2 ^ 16) with 65536. lia.
Qed.

Lemma qFromBigEndian_bits (port : Resolver.uint16_be) (n : Z) :
  0 <= n ->
  Z.testbit (Resolver.qFromBigEndian port) n
  = if n <? 8 then Z.testbit (snd port) n
    else if n <? 16 then Z.testbit (fst port) (n - 8)
         else false.
Proof.
  intros Hn. unfold Resolver.qFromBigEndian.
  rewrite Z.lor_spec, Z.shiftl_spec, !Z.land_spec by lia.
  rewrite (testbit_255 n) by lia.
  destruct (Z.ltb_spec n 8).
  - rewrite Z.testbit_neg_r by lia. now rewrite andb_true_r.
  - rewrite (testbit_255 (n - 8)) by lia. rewrite andb_false_r, orb_false_r.
    destruct (Z.ltb_spec n 16), (Z.ltb_spec (n - 8) 8); try lia;
      rewrite ?andb_true_r, ?andb_false_r; reflexivity.
Qed.

(** X6: whatever the two bytes, the port read by [qFromBigEndian] fits a
    [quint16]; and a port written by [qToBigEndian], as the ServiceRecord
    does with the port of the local peer, is read back unchanged. *)
Theorem port_round_trip (port : Z) (bytes : Resolver.uint16_be) (lp : LocalDnsPeer.t) :
  0 <= Resolver.qFromBigEndian bytes < 65536 /\
  (0 <= port < 65536 -> Resolver.qFromBigEndian (Resolver.qToBigEndian port) = port) /\
  (0 <= LocalDnsPeer.port lp < 65536 ->
   Resolver.qFromBigEndian (System.advertised_port lp) = LocalDnsPeer.get_port lp).
Proof.
  assert (Hround : forall p, 0 <= p < 65536 ->
                             Resolver.qFromBigEndian (Resolver.qToBigEndian p) = p).
  { intros p Hp. apply Z.bits_inj'. intros n Hn.
    rewrite qFromBigEndian_bits by assumption. unfold Resolver.qToBigEndian.
    cbn [fst snd].
    destruct (Z.ltb_spec n 8).
    - rewrite Z.land_spec, testbit_255 by lia.
      replace (n <? 8) with true by (symmetry; apply Z.ltb_lt; lia).
      now rewrite andb_true_r.
    - destruct (Z.ltb_spec n 16).
      + rewrite Z.land_spec, Z.shiftr_spec, testbit_255 by lia.
        replace (n - 8 <? 8) with true by (symmetry; apply Z.ltb_lt; lia).
        rewrite andb_true_r. f_equal. lia.
      + symmetry. now apply small_bits. }
  split; [|split; [apply Hround | intros H; apply Hround, H]].
  assert (Hnonneg : 0 <= Resolver.qFromBigEndian bytes).
  { unfold Resolver.qFromBigEndian. apply Z.lor_nonneg. split.
    - apply Z.shiftl_nonneg. apply Z.land_nonneg. right. lia.
    - apply Z.land_nonneg. right. lia. }
  split; [exact Hnonneg|].
  replace (Resolver.qFromBigEndian bytes) with (Resolver.qFromBigEndian bytes mod 2 ^ 16).
  - apply Z.mod_pos_bound. reflexivity.
  - apply Z.bits_inj'. intros n Hn.
    destruct (Z.ltb_spec n 16).
    + apply Z.mod_pow2_bits_low. lia.
    + rewrite Z.mod_pow2_bits_high by lia.
      rewrite qFromBigEndian_bits by assumption.
      replace (n <? 8) with false by (symmetry; apply Z.ltb_ge; lia).
      replace (n <? 16) with false by (symmetry; apply Z.ltb_ge; lia).
      reflexivity.
Qed.

Example port_4242_round_trip :
  Resolver.qToBigEndian 4242 = Sample.port_4242 /\
  Resolver.qFromBigEndian Sample.port_4242 = 4242.
Proof. split; reflexivity. Qed.

End SocketFacts.

(** ** More on the tracked peers *)

Section TrackedPeers.

Import Discovery.





(** The peer found for a name is found again, at its place, after it took
    other values under the same name. *)
Lemma find_from_insert (k j : nat) (l : list DnsPeer.t) (name : QString)
      (p p' : DnsPeer.t) :
  Browser.find_from k l name = Some (j, p) ->
  DnsPeer.service_name p' = name ->
  Browser.find_from k (<[(j - k)%nat := p']> l) name = Some (j, p').
Proof.
  revert k. induction l as [|q l IH]; intros k; simpl; [discriminate|].
  unfold DnsPeer.get_service_name.
  destruct (String.eqb_spec (DnsPeer.service_name q) name) as [Heq|Hne].
  - intros [= <- <-] Hname. rewrite Nat.sub_diag. simpl.
    unfold DnsPeer.get_service_name. now rewrite Hname, String.eqb_refl.
  - intros Hfind Hname. pose proof (find_from_some _ _ _ _ _ Hfind) as (Hle & _).
    replace (j - k)%nat with (S (j - S k)) by lia. simpl.
    unfold DnsPeer.get_service_name.
    rewrite (proj2 (String.eqb_neq _ _) Hne). now apply IH.
Qed.

(** X9: refreshing a tracked peer twice with the same result is refreshing
    it once: the second [peer_resolved] leaves the Browser as the first one
    left it and emits neither [hostname_changed] nor [port_changed] nor
    [added], only its debug line. *)
Theorem refresh_is_idempotent (lp : LocalDnsPeer.t) (peer p : DnsPeer.t) (i : nat)
        (c : Browser.t) :
  Browser.find_peer_by_service_name c (DnsPeer.service_name peer) = Some (i, p) ->
  Browser.peer_resolved lp peer (fst (Browser.peer_resolved lp peer c))
  = (fst (Browser.peer_resolved lp peer c),
     [Message QtDebugMsg "Browser: updating" (DnsPeer.service_name peer)]).
Proof.
  intros Hfind. rewrite (proj1 (peer_resolved_tracked lp peer p i c Hfind)).
  set (p' := DnsPeer.mk (DnsPeer.this p) (DnsPeer.service_name p) (DnsPeer.hostname peer)
                        (DnsPeer.port peer) (DnsPeer.deleteLater p)).
  unfold Browser.find_peer_by_service_name in Hfind.
  pose proof (find_from_some _ _ _ _ _ Hfind) as (_ & Hi & Hname & _).
  rewrite Nat.sub_0_r in Hi.
  assert (Hfind' : Browser.find_from 0 (<[i := p']> (Browser.dns_peers c))
                                     (DnsPeer.service_name peer)
                   = Some (i, p')).
  { rewrite <- (Nat.sub_0_r i) at 1. now apply (find_from_insert 0 i _ _ p p'). }
  unfold Browser.peer_resolved at 1, Browser.find_peer_by_service_name,
    DnsPeer.get_service_name.
  cbn [Browser.dns_peers]. rewrite Hfind'.
  unfold DnsPeer.set_hostname, DnsPeer.get_hostname, DnsPeer.set_port, DnsPeer.get_port.
  cbn [DnsPeer.hostname DnsPeer.port p']. rewrite String.eqb_refl. cbn [negb].
  cbn [DnsPeer.port]. rewrite Z.eqb_refl. cbn [negb app Browser.socket Browser.dns_peers
                                                 Browser.resolvers].
  now rewrite list_insert_insert_eq.
Qed.

Lemma refresh_is_idempotent_witness :
  Browser.peer_resolved
    Sample.alice (DnsPeer.mk 14%nat "carol@h3" "carol.lan" 4243 false)
    (fst (Browser.peer_resolved
            Sample.alice (DnsPeer.mk 14%nat "carol@h3" "carol.lan" 4243 false)
            Sample.tracking_carol))
  = (fst (Browser.peer_resolved
            Sample.alice (DnsPeer.mk 14%nat "carol@h3" "carol.lan" 4243 false)
            Sample.tracking_carol),
     [Message QtDebugMsg "Browser: updating" "carol@h3"]).
Proof.
  apply (refresh_is_idempotent Sample.alice
           (DnsPeer.mk 14%nat "carol@h3" "carol.lan" 4243 false) Sample.carol 0%nat
           Sample.tracking_carol).
  reflexivity.
Defined.

End TrackedPeers.

(** ** The life of a Resolver *)

Section ResolverLife.

Import Discovery.

Lemma peer_resolved_resolvers (lp : LocalDnsPeer.t) (peer : DnsPeer.t) (c : Browser.t) :
  Browser.resolvers (fst (Browser.peer_resolved lp peer c)) = Browser.resolvers c /\
  Browser.socket (fst (Browser.peer_resolved lp peer c)) = Browser.socket c.
Proof.
  unfold Browser.peer_resolved.
  destruct (Browser.find_peer_by_service_name c (DnsPeer.get_service_name peer))
    as [[i p]|].
  - destruct (DnsPeer.set_hostname _ p) as [p1 t1].
    destruct (DnsPeer.set_port _ p1) as [p2 t2]. now split.
  - destruct (negb _); now split.
Qed.

(** Whatever the result, [resolver_callback] marks the Resolver for
    deletion; it keeps the message empty on success and sets it on error. *)
Lemma resolver_callback_marks (error_code : Error) (hostname : QString)
      (port : Resolver.uint16_be) (res : Resolver.t) :
  DnsSocket.deleteLater
    (Resolver.socket (fst (Resolver.resolver_callback error_code hostname port res)))
  = true /\
  DnsSocket.error_msg
    (Resolver.socket (fst (Resolver.resolver_callback error_code hostname port res)))
  = if DnsSocket.has_error error_code then Resolver.make_error_string error_code
    else DnsSocket.error_msg (Resolver.socket res).
Proof.
  unfold Resolver.resolver_callback.
  destruct (DnsSocket.has_error error_code); [now split|].
  destruct (DnsPeer.set_port _ _) as [p1 t1].
  destruct (DnsPeer.set_hostname _ p1) as [p2 t2]. now split.
Qed.

(** What the Browser is after a result of the Resolver at [r]. *)
Lemma on_resolver_callback_fst (lp : LocalDnsPeer.t) (r : ObjId) (res : Resolver.t)
      (error_code : Error) (hostname : QString) (port : Resolver.uint16_be)
      (c : Browser.t) :
  Browser.resolvers c !! r = Some res ->
  let res' := fst (Resolver.resolver_callback error_code hostname port res) in
  let c0 := Browser.mk (Browser.socket c) (Browser.dns_peers c)
                       (<[r := res']> (Browser.resolvers c)) in
  (error_code <> kDNSServiceErr_NoError ->
   Browser.on_resolver_callback lp r error_code hostname port c = (c0, [])) /\
  (error_code = kDNSServiceErr_NoError ->
   fst (Browser.on_resolver_callback lp r error_code hostname port c)
   = fst (Browser.peer_resolved lp (Resolver.peer res') c0)).
Proof.
  intros Hres. cbv zeta. split.
  - intros Herr. unfold Browser.on_resolver_callback, Resolver.resolver_callback,
      DnsSocket.has_error.
    rewrite Hres, (proj2 (Z.eqb_neq _ _) Herr). reflexivity.
  - intros ->. unfold Browser.on_resolver_callback. rewrite Hres.
    destruct (resolver_callback_success hostname port res)
      as (res' & changed & -> & Hchanged & Hpeer).
    rewrite (route_changed _ _ _ _ _ _ Hchanged). cbn [fst Browser.route].
    now destruct (Browser.peer_resolved _ _ _).
Qed.

(** X10: a Resolver is used once. After any result of its resolve query,
    success or error, the Resolver is marked for deletion and the next turn
    of the event loop takes it out of the Browser's children. A result that
    reports an error leaves the tracked peers as they are and emits nothing:
    the peer of that Resolver is never published. *)
Theorem resolver_is_used_once
        (lp : LocalDnsPeer.t) (r : ObjId) (res : Resolver.t) (error_code : Error)
        (hostname : QString) (port : Resolver.uint16_be) (c : Browser.t) :
  Browser.resolvers c !! r = Some res ->
  (exists res',
      Browser.resolvers (fst (Browser.on_resolver_callback lp r error_code hostname port c))
        !! r = Some res' /\
      DnsSocket.deleteLater (Resolver.socket res') = true) /\
  Browser.resolvers
    (fst (Browser.deferred_delete
            (fst (Browser.on_resolver_callback lp r error_code hostname port c)))) !! r
  = None /\
  (error_code <> kDNSServiceErr_NoError ->
   Browser.dns_peers (fst (Browser.on_resolver_callback lp r error_code hostname port c))
   = Browser.dns_peers c /\
   snd (Browser.on_resolver_callback lp r error_code hostname port c) = []).
Proof.
  intros Hres.
  destruct (on_resolver_callback_fst lp r res error_code hostname port c Hres)
    as [Herror Hsuccess].
  destruct (resolver_callback_marks error_code hostname port res) as [Hmarked _].
  set (res' := fst (Resolver.resolver_callback error_code hostname port res)) in *.
  assert (Hthere : Browser.resolvers
                     (fst (Browser.on_resolver_callback lp r error_code hostname port c))
                     !! r = Some res').
  { destruct (Z.eq_dec error_code kDNSServiceErr_NoError) as [Heq|Hne].
    - rewrite (Hsuccess Heq), (proj1 (peer_resolved_resolvers _ _ _)). cbn.
      apply lookup_insert_eq.
    - rewrite (Herror Hne). cbn. apply lookup_insert_eq. }
  split; [exists res'; now split|]. split.
  - cbn. apply map_lookup_filter_None. right. intros x Hx. rewrite Hthere in Hx.
    injection Hx as <-. cbn. unfold Browser.resolver_posted. rewrite Hmarked. discriminate.
  - intros Hne. now rewrite (Herror Hne).
Qed.

Lemma resolver_is_used_once_witness :
  Browser.resolvers
    (fst (Browser.deferred_delete
            (fst (Browser.on_resolver_callback Sample.alice 11%nat kDNSServiceErr_NoError
                                               "host1.local" Sample.port_4242
                                               Sample.resolving_alice)))) !! 11%nat
  = None.
Proof.
  refine (proj1 (proj2
    (resolver_is_used_once Sample.alice 11%nat Sample.alice_resolver kDNSServiceErr_NoError
                           "host1.local" Sample.port_4242 Sample.resolving_alice _))).
  reflexivity.
Defined.

End ResolverLife.

(** ** What holds of the Browser whatever happens *)

Section BrowserInvariants.

Import Discovery.

(** X7: from an idle Browser on, whatever results, name changes and
    deferred deletions follow, no two tracked peers have the same service
    name, and a tracked peer that has the accepted name of the local peer is
    marked for deletion: the Browser never keeps its own record. *)
Theorem tracked_names_are_unique_and_not_self
        (lp : LocalDnsPeer.t) (this : ObjId) (events : list System.Event)
        (s : System.t) (trace : list Effect) :
  System.run events (System.idle lp this) = Returns s trace ->
  NoDup (DnsPeer.service_name <$> Browser.dns_peers (System.browser s)) /\
  forall (i : nat) (p : DnsPeer.t),
    Browser.find_peer_by_service_name
      (System.browser s) (LocalDnsPeer.service_name (System.local_peer s)) = Some (i, p) ->
    DnsPeer.deleteLater p = true.
Proof.
  intros Hrun. destruct (reached_self_untracked lp this events s trace Hrun)
    as [Hnodup Hlive].
  split; [exact Hnodup|]. intros i p Hfind.
  unfold Browser.find_peer_by_service_name in Hfind.
  apply find_from_some in Hfind as (_ & Hi & Hname & _).
  destruct (DnsPeer.deleteLater p) eqn:Hflag; [reflexivity|].
  exfalso. apply (Hlive p); [|assumption..].
  apply list_elem_of_lookup. eauto.
Qed.

Lemma tracked_names_are_unique_and_not_self_witness :
  exists s trace,
    System.run (firstn 3 Sample.carol_story) (System.idle Sample.alice 10%nat)
    = Returns s trace /\
    NoDup (DnsPeer.service_name <$> Browser.dns_peers (System.browser s)) /\
    forall (i : nat) (p : DnsPeer.t),
      Browser.find_peer_by_service_name
        (System.browser s) (LocalDnsPeer.service_name (System.local_peer s)) = Some (i, p) ->
      DnsPeer.deleteLater p = true.
Proof.
  eexists. eexists. split; [vm_compute; reflexivity|].
  eapply (tracked_names_are_unique_and_not_self
            Sample.alice 10%nat (firstn 3 Sample.carol_story)).
  vm_compute. reflexivity.
Defined.

Lemma added_peers_app (t1 t2 : list Effect) :
  added_peers (t1 ++ t2) = added_peers t1 ++ added_peers t2.
Proof.
  induction t1 as [|e t1 IH]; [reflexivity|]. destruct e; simpl; now rewrite IH.
Qed.

Lemma added_peers_none (t : list Effect) : count_added t = 0%nat -> added_peers t = [].
Proof.
  unfold count_added. induction t as [|e t IH]; [reflexivity|].
  destruct e; simpl; auto; discriminate.
Qed.

Lemma ids_insert (l : list DnsPeer.t) (i : nat) (p p' : DnsPeer.t) :
  l !! i = Some p -> DnsPeer.this p' = DnsPeer.this p ->
  DnsPeer.this <$> <[i := p']> l = DnsPeer.this <$> l.
Proof.
  intros Hi Hthis. rewrite list_fmap_insert, Hthis. apply list_insert_id.
  now rewrite list_lookup_fmap, Hi.
Qed.

Lemma ids_filter (f : DnsPeer.t -> bool) (l : list DnsPeer.t) :
  (DnsPeer.this <$> List.filter f l) `sublist_of` (DnsPeer.this <$> l).
Proof.
  induction l as [|q l IH]; [constructor|]. simpl.
  destruct (f q); cbn [fmap list_fmap]; [now apply sublist_skip | now apply sublist_cons].
Qed.

Lemma ids_marked (c : Browser.t) (name : QString) (i : nat) (p : DnsPeer.t) :
  Browser.find_peer_by_service_name c name = Some (i, p) ->
  DnsPeer.this <$> Browser.dns_peers (Browser.peer_deleteLater i p c)
  = DnsPeer.this <$> Browser.dns_peers c.
Proof.
  intros Hfind. unfold Browser.find_peer_by_service_name in Hfind.
  apply find_from_some in Hfind as (_ & Hi & _ & _). rewrite Nat.sub_0_r in Hi.
  cbn. now apply (ids_insert _ i p).
Qed.

Lemma peer_resolved_announces (lp : LocalDnsPeer.t) (peer : DnsPeer.t) (c : Browser.t) :
  DnsPeer.this <$> Browser.dns_peers (fst (Browser.peer_resolved lp peer c))
  = (DnsPeer.this <$> Browser.dns_peers c)
    ++ added_peers (snd (Browser.peer_resolved lp peer c)).
Proof.
  destruct (Browser.find_peer_by_service_name c (DnsPeer.service_name peer))
    as [[i p]|] eqn:Hfind.
  - destruct (peer_resolved_tracked lp peer p i c Hfind) as [-> Hcount].
    rewrite (added_peers_none _ Hcount), app_nil_r. cbn.
    unfold Browser.find_peer_by_service_name in Hfind.
    apply find_from_some in Hfind as (_ & Hi & _ & _). rewrite Nat.sub_0_r in Hi.
    now apply (ids_insert _ i p).
  - destruct (String.eqb_spec (LocalDnsPeer.service_name lp) (DnsPeer.service_name peer))
      as [Heq|Hne].
    + rewrite self_ignored by congruence. cbn. now rewrite app_nil_r.
    + rewrite peer_resolved_new by assumption. cbn. now rewrite fmap_app.
Qed.

Lemma resolver_destroyed_announces_nothing (l : list (ObjId * Resolver.t)) :
  added_peers
    (flat_map (fun kv => if Browser.resolver_posted (snd kv)
                         then Browser.resolver_destroyed (snd kv) else []) l) = [].
Proof.
  induction l as [|kv l IH]; [reflexivity|]. simpl. rewrite added_peers_app, IH.
  destruct (Browser.resolver_posted (snd kv)); [|reflexivity].
  unfold Browser.resolver_destroyed, DnsSocket.destructor. now destruct (negb _).
Qed.

(** One step: the tracked peers afterwards are among those tracked before
    and those announced by the step. *)
Lemma handle_announces (e : System.Event) (s s' : System.t) (trace : list Effect) :
  System.handle e s = Returns s' trace ->
  (DnsPeer.this <$> Browser.dns_peers (System.browser s'))
    `sublist_of` (DnsPeer.this <$> Browser.dns_peers (System.browser s))
                 ++ added_peers trace.
Proof.
  destruct e as [env flags ec name|r ec hostname port|new_name|]; cbn [System.handle].
  - unfold System.browser_callback, Browser.browser_callback.
    destruct (DnsSocket.has_error ec).
    { intros [= <- <-]. cbn. now rewrite app_nil_r. }
    destruct (negb _).
    + unfold Resolver.new, DnsSocket.init_with.
      destruct (DnsSocket.has_error _); [|destruct (negb _); [|discriminate]];
        intros [= <- <-]; cbn; now rewrite app_nil_r.
    + intros [= <- <-]. cbn [System.browser added_peers]. rewrite app_nil_r.
      unfold Browser.peer_removed.
      destruct (Browser.find_peer_by_service_name (System.browser s) name)
        as [[i p]|] eqn:Hfind; [|reflexivity].
      now rewrite (ids_marked _ name i p Hfind).
  - unfold System.on_resolver_callback.
    destruct (Browser.resolvers (System.browser s) !! r) as [res|] eqn:Hres.
    + destruct (Z.eq_dec ec kDNSServiceErr_NoError) as [->|Hne].
      * destruct (on_resolver_callback_success (System.local_peer s) r res hostname port
                                               (System.browser s) Hres)
          as (res' & changed & _ & Hcount & ->).
        cbv zeta. intros [= <- <-]. cbn [System.browser].
        rewrite added_peers_app, (added_peers_none _ Hcount). cbn [app added_peers].
        now rewrite peer_resolved_announces.
      * rewrite (proj1 (on_resolver_callback_fst (System.local_peer s) r res ec hostname
                                                 port (System.browser s) Hres) Hne).
        intros [= <- <-]. cbn. now rewrite app_nil_r.
    + unfold Browser.on_resolver_callback. rewrite Hres.
      intros [= <- <-]. cbn. now rewrite app_nil_r.
  - unfold System.set_service_name.
    destruct (String.eqb_spec (LocalDnsPeer.service_name (System.local_peer s)) new_name)
      as [<-|Hne].
    + rewrite set_service_name_same. intros [= <- <-]. cbn. now rewrite app_nil_r.
    + destruct (set_service_name_changes new_name (System.local_peer s) Hne)
        as (rest & -> & Hrest).
      rewrite (route_service_name_changed _ _ _ Hrest).
      intros [= <- <-]. cbn [System.browser].
      replace (added_peers (LocalDnsPeer_service_name_changed :: rest)) with (@nil ObjId)
        by (now destruct Hrest as [-> | ->]).
      rewrite app_nil_r. unfold Browser.service_name_changed.
      destruct (Browser.find_peer_by_service_name _ _) as [[i p]|] eqn:Hfind;
        [|reflexivity].
      now rewrite (ids_marked _ _ i p Hfind).
  - unfold System.deferred_delete, Browser.deferred_delete.
    intros [= <- <-]. cbn [System.browser Browser.dns_peers].
    rewrite resolver_destroyed_announces_nothing, app_nil_r. apply ids_filter.
Qed.

Lemma run_announces (events : list System.Event) :
  forall (s s' : System.t) (trace : list Effect),
    System.run events s = Returns s' trace ->
    (DnsPeer.this <$> Browser.dns_peers (System.browser s'))
      `sublist_of` (DnsPeer.this <$> Browser.dns_peers (System.browser s))
                   ++ added_peers trace.
Proof.
  induction events as [|e events IH]; intros s s' trace; cbn [System.run].
  - intros [= <- <-]. cbn. now rewrite app_nil_r.
  - destruct (System.handle e s) as [s1 t1|t1] eqn:He; [|discriminate].
    destruct (System.run events s1) as [s2 t2|t2] eqn:Hrun; [|discriminate].
    intros [= <- <-]. rewrite added_peers_app, app_assoc.
    etransitivity; [exact (IH _ _ _ Hrun)|].
    apply sublist_app; [|reflexivity]. exact (handle_announces _ _ _ _ He).
Qed.

(** X11: the Browser tracks no peer it has not announced. From an idle
    Browser on, the peers tracked at any moment are, in their order, among
    the peers handed over by the [added] signals emitted so far. *)
Theorem tracked_peers_were_announced
        (lp : LocalDnsPeer.t) (this : ObjId) (events : list System.Event)
        (s : System.t) (trace : list Effect) :
  System.run events (System.idle lp this) = Returns s trace ->
  (DnsPeer.this <$> Browser.dns_peers (System.browser s)) `sublist_of` added_peers trace.
Proof. intros Hrun. exact (run_announces events _ _ _ Hrun). Qed.

Lemma tracked_peers_were_announced_witness :
  exists s trace,
    System.run (firstn 2 Sample.carol_story) (System.idle Sample.alice 10%nat)
    = Returns s trace /\
    (DnsPeer.this <$> Browser.dns_peers (System.browser s)) `sublist_of` added_peers trace.
Proof.
  eexists. eexists. split; [vm_compute; reflexivity|].
  eapply (tracked_peers_were_announced
            Sample.alice 10%nat (firstn 2 Sample.carol_story)).
  vm_compute. reflexivity.
Defined.

(** In that story [carol] is added, then marked when the local peer takes
    her name, then deleted: announced once, tracked no more. *)
Example carol_story_ends :
  exists s trace,
    System.run Sample.carol_story (System.idle Sample.alice 10%nat) = Returns s trace /\
    added_peers trace = [12%nat] /\ Browser.dns_peers (System.browser s) = [].
Proof. eexists. eexists. split; [vm_compute; reflexivity|]. split; reflexivity. Qed.

End BrowserInvariants.

(** ** A resolve query that does not start *)

Section ResolverStart.

Import Discovery.



End ResolverStart.

(** ** The Browser of the earlier revision *)

Section LegacyBrowser.

Import Legacy.

Lemma replay_app (t1 t2 : list Effect) (names : gset string) :
  World.replay (t1 ++ t2) names = World.replay t2 (World.replay t1 names).
Proof.
  revert names. induction t1 as [|e t1 IH]; intros names; [reflexivity|].
  destruct e; simpl; apply IH.
Qed.

Lemma added_names_app (t1 t2 : list Effect) :
  World.added_names (t1 ++ t2) = World.added_names t1 ++ World.added_names t2.
Proof.
  induction t1 as [|e t1 IH]; [reflexivity|]. destruct e; simpl; now rewrite IH.
Qed.

Lemma removed_names_app (t1 t2 : list Effect) :
  World.removed_names (t1 ++ t2) = World.removed_names t1 ++ World.removed_names t2.
Proof.
  induction t1 as [|e t1 IH]; [reflexivity|]. destruct e; simpl; now rewrite IH.
Qed.

Lemma told_nothing (c c' : Browser.t) (trace : list Effect) :
  Browser.discovered_peers c' = Browser.discovered_peers c ->
  Browser.instance_username c' = Browser.instance_username c ->
  World.added_names trace = [] -> World.removed_names trace = [] ->
  (forall names, World.replay trace names = names) ->
  World.told c c' trace.
Proof.
  intros Hd Hi Ha Hr Hreplay. unfold World.told. rewrite Hd, Hi, Ha, Hr, Hreplay.
  repeat split; try assumption; try apply not_elem_of_nil. now intros H.
Qed.

Lemma resolved_peer_added_told (peer : Peer) (c : Browser.t) :
  World.told c (fst (Browser.resolved_peer_added peer c))
       (snd (Browser.resolved_peer_added peer c)) /\
  Browser.resolvers (fst (Browser.resolved_peer_added peer c)) = Browser.resolvers c.
Proof.
  unfold Browser.resolved_peer_added.
  destruct (String.eqb_spec (username peer) (Browser.instance_username c)) as [Heq|Hne];
    cbn [negb]; [split; [now apply told_nothing | reflexivity]|].
  destruct (bool_decide _); cbn [negb]; [split; [now apply told_nothing | reflexivity]|].
  split; [|reflexivity]. unfold World.told. cbn. repeat split.
  - intros Hself. apply not_elem_of_union. split; [assumption|].
    apply not_elem_of_singleton. congruence.
  - intros Hin. apply list_elem_of_singleton in Hin. congruence.
  - apply not_elem_of_nil.
Qed.

Lemma peer_removed_told (name : QString) (c : Browser.t) :
  World.told c (fst (Browser.peer_removed name c)) (snd (Browser.peer_removed name c)) /\
  Browser.resolvers (fst (Browser.peer_removed name c)) = Browser.resolvers c.
Proof.
  unfold Browser.peer_removed.
  destruct (String.eqb_spec name (Browser.instance_username c)) as [Heq|Hne];
    cbn [negb]; [split; [now apply told_nothing | reflexivity]|].
  destruct (bool_decide _); [|split; [now apply told_nothing | reflexivity]].
  split; [|reflexivity]. unfold World.told. cbn. repeat split.
  - intros Hself Hin. apply elem_of_difference in Hin as [Hin _]. contradiction.
  - apply not_elem_of_nil.
  - intros Hin. apply list_elem_of_singleton in Hin. congruence.
Qed.

Lemma destroy_resolver_browser (r : ObjId) (w : World.t) :
  Browser.discovered_peers (World.browser (World.destroy_resolver r w))
  = Browser.discovered_peers (World.browser w) /\
  Browser.instance_username (World.browser (World.destroy_resolver r w))
  = Browser.instance_username (World.browser w).
Proof.
  unfold World.destroy_resolver.
  destruct (Browser.resolvers (World.browser w) !! r); now split.
Qed.

Lemma destroy_some_browser (keep : ObjId * Resolver.t -> bool)
      (l : list (ObjId * Resolver.t)) (w : World.t) :
  let w' := foldr (fun kv w => if keep kv then World.destroy_resolver (fst kv) w else w)
                  w l in
  Browser.discovered_peers (World.browser w') = Browser.discovered_peers (World.browser w) /\
  Browser.instance_username (World.browser w') = Browser.instance_username (World.browser w).
Proof.
  induction l as [|kv l [IHd IHi]]; [now split|]. cbn zeta in *. simpl.
  destruct (keep kv); [|now split].
  destruct (destroy_resolver_browser
              (fst kv)
              (foldr (fun kv w => if keep kv then World.destroy_resolver (fst kv) w else w)
                     w l)) as [-> ->].
  now split.
Qed.

(** One step tells what it does to the set. *)
Lemma handle_told (e : World.Event) (w w' : World.t) (trace : list Effect) :
  World.handle e w = Returns w' trace ->
  World.told (World.browser w) (World.browser w') trace.
Proof.
  destruct e as [env flags ec name|r ec hostname port|r err|id hi| |]; cbn [World.handle].
  - unfold World.browser_callback, Browser.browser_callback.
    destruct (ec =? _); [|intros [= <- <-]; now apply told_nothing].
    destruct (negb _).
    + unfold Resolver.new, DnsSocket.fromFunc.
      destruct (_ =? _); [destruct (negb _); [|discriminate]|];
        intros [= <- <-]; now apply told_nothing.
    + pose proof (peer_removed_told name (World.browser w)) as [H _].
      destruct (Browser.peer_removed name (World.browser w)) as [c t].
      intros [= <- <-]. exact H.
  - unfold World.resolver_callback.
    destruct (Browser.resolvers (World.browser w) !! r) as [res|];
      [|intros [= <- <-]; now apply told_nothing].
    unfold Resolver.resolver_callback, HostLookup.lookupHost.
    destruct (ec =? _); intros [= <- <-]; now apply told_nothing.
  - destruct (Browser.resolvers (World.browser w) !! r) as [res|];
      [|intros [= <- <-]; now apply told_nothing].
    unfold Resolver.socket_error, DnsSocket.has_pending_data.
    destruct (negb _); intros [= <- <-]; now apply told_nothing.
  - unfold World.lookup_finished.
    destruct (HostLookup.pending (World.lookups w) !! id) as [receiver|];
      [|intros [= <- <-]; now apply told_nothing].
    destruct (Browser.resolvers (World.browser w) !! receiver) as [res|];
      [|intros [= <- <-]; now apply told_nothing].
    unfold Resolver.hostname_resolved.
    destruct (error hi); [destruct (addresses hi) as [|first others]; [discriminate|]| |];
      cbn [World.route];
      try (intros [= <- <-]; now apply told_nothing).
    match goal with
    | |- context [Browser.resolved_peer_added ?peer ?c] =>
        pose proof (resolved_peer_added_told peer c) as [H _];
        destruct (Browser.resolved_peer_added peer c) as [c' t]
    end.
    intros [= <- <-]. cbn [fst snd] in H. rewrite app_nil_r. exact H.
  - intros [= <- <-]. unfold World.deferred_delete.
    destruct (destroy_some_browser (fun kv => Resolver.deleteLater (snd kv))
                (map_to_list (Browser.resolvers (World.browser w))) w) as [Hd Hi].
    now apply told_nothing.
  - intros [= <- <-]. unfold World.destroy_browser.
    destruct (destroy_some_browser (fun _ => true)
                (map_to_list (Browser.resolvers (World.browser w))) w) as [Hd Hi].
    now apply told_nothing.
Qed.

Lemma told_trans (c1 c2 c3 : Browser.t) (t1 t2 : list Effect) :
  World.told c1 c2 t1 -> World.told c2 c3 t2 -> World.told c1 c3 (t1 ++ t2).
Proof.
  intros (Hd1 & Hi1 & Hs1 & Ha1 & Hr1) (Hd2 & Hi2 & Hs2 & Ha2 & Hr2).
  rewrite Hi1 in Hs2, Ha2, Hr2. unfold World.told.
  split; [rewrite replay_app, <- Hd1; exact Hd2|].
  split; [congruence|]. split; [intros H; apply Hs2, Hs1, H|].
  rewrite added_names_app, removed_names_app.
  split; intros Hin; apply elem_of_app in Hin as [Hin|Hin]; contradiction.
Qed.

Lemma run_told (events : list World.Event) :
  forall (w w' : World.t) (trace : list Effect),
    World.run events w = Returns w' trace ->
    World.told (World.browser w) (World.browser w') trace.
Proof.
  induction events as [|e events IH]; intros w w' trace; cbn [World.run].
  - intros [= <- <-]. now apply told_nothing.
  - destruct (World.handle e w) as [w1 t1|t1] eqn:He; [|discriminate].
    destruct (World.run events w1) as [w2 t2|t2] eqn:Hrun; [|discriminate].
    intros [= <- <-]. eapply told_trans; [exact (handle_told _ _ _ _ He)|].
    exact (IH _ _ _ Hrun).
Qed.

(** X13: the signals tell the set. Whatever happens to a Browser, the set of
    discovered names it ends with is the set it started with, changed as the
    [added] and [removed] signals it emitted say, in their order: a listener
    that follows the signals has the Browser's set. *)
Theorem signals_tell_the_discovered_set
        (events : list World.Event) (w w' : World.t) (trace : list Effect) :
  World.run events w = Returns w' trace ->
  Browser.discovered_peers (World.browser w')
  = World.replay trace (Browser.discovered_peers (World.browser w)).
Proof. intros Hrun. exact (proj1 (run_told events _ _ _ Hrun)). Qed.

Lemma signals_tell_the_discovered_set_witness :
  exists w' trace,
    World.run Sample.story Sample.world = Returns w' trace /\
    Browser.discovered_peers (World.browser w')
    = World.replay trace (Browser.discovered_peers (World.browser Sample.world)).
Proof.
  eexists. eexists. split; [vm_compute; reflexivity|].
  apply (signals_tell_the_discovered_set Sample.story).
  vm_compute. reflexivity.
Defined.

(** X14: a Browser never discovers itself. From its start on, whatever
    happens, its own username is not in the set of discovered names, and no
    [added] and no [removed] is ever emitted for it. *)
Theorem own_name_is_never_discovered
        (username : QString) (events : list World.Event) (w : World.t)
        (trace : list Effect) :
  World.run events (World.initial username) = Returns w trace ->
  Browser.instance_username (World.browser w) = username /\
  (username ∉ Browser.discovered_peers (World.browser w)) /\
  (username ∉ World.added_names trace) /\
  (username ∉ World.removed_names trace).
Proof.
  intros Hrun. destruct (run_told events _ _ _ Hrun) as (_ & Hi & Hs & Ha & Hr).
  cbn in Hi, Hs, Ha, Hr. repeat split; try assumption. apply Hs, not_elem_of_empty.
Qed.

Lemma own_name_is_never_discovered_witness :
  exists w trace,
    World.run [World.Browse (Resolver.mkEnv 11%nat 0 kDNSServiceErr_NoError 5)
                            kDNSServiceFlagsAdd kDNSServiceErr_NoError "alice";
               World.Resolve 11%nat kDNSServiceErr_NoError "host1.local" (16, 146);
               World.LookupFinished 1 Sample.one_address]
              (World.initial "alice")
    = Returns w trace /\
    ("alice" ∉ Browser.discovered_peers (World.browser w)) /\
    ("alice" ∉ World.added_names trace).
Proof.
  eexists. eexists. split; [vm_compute; reflexivity|].
  assert (H : forall w trace,
             World.run [World.Browse (Resolver.mkEnv 11%nat 0 kDNSServiceErr_NoError 5)
                                     kDNSServiceFlagsAdd kDNSServiceErr_NoError "alice";
                        World.Resolve 11%nat kDNSServiceErr_NoError "host1.local" (16, 146);
                        World.LookupFinished 1 Sample.one_address]
                       (World.initial "alice")
             = Returns w trace ->
             ("alice" ∉ Browser.discovered_peers (World.browser w)) /\
             ("alice" ∉ World.added_names trace)).
  { intros w trace Hrun.
    destruct (own_name_is_never_discovered "alice" _ w trace Hrun) as (_ & H1 & H2 & _).
    now split. }
  apply H. vm_compute. reflexivity.
Defined.

End LegacyBrowser.

(** ** The Resolver of the earlier revision *)

Section LegacyResolver.

Import Legacy.

(** What [hostname_resolved] leaves of the Resolver when it returns: no
    lookup, the mark for deletion, the same address. *)
Lemma hostname_resolved_resets (host_info : QHostInfo) (c c' : Resolver.t)
      (trace : list Effect) :
  Resolver.hostname_resolved host_info c = Returns c' trace ->
  Resolver.hostname_lookup_id c' = -1 /\ Resolver.deleteLater c' = true /\
  Resolver.this c' = Resolver.this c.
Proof.
  unfold Resolver.hostname_resolved.
  destruct (error host_info); [destruct (addresses host_info); [discriminate|]| |];
    intros [= <- <-]; now repeat split.
Qed.

(** X15: a lookup that reports an error ends its Resolver and nothing else.
    The Resolver writes a warning, emits no [peer_complete], holds no lookup
    any more and is marked for deletion; the set of discovered names and the
    other Resolvers are as they were, and the run goes on. *)
Theorem lookup_error_ends_the_resolver_only
        (host_info : QHostInfo) (c : Resolver.t) (w : World.t) (id : Z) :
  error host_info <> NoError ->
  HostLookup.pending (World.lookups w) !! id = Some (Resolver.this c) ->
  Browser.resolvers (World.browser w) !! Resolver.this c = Some c ->
  exists w',
    World.lookup_finished id host_info w
    = Returns w' [QHostInfo_resultsReady id (Resolver.this c);
                  Message QtWarningMsg "QHostInfo failed for"
                          (hostName host_info +:+ " " +:+ errorString host_info)] /\
    Browser.resolvers (World.browser w') !! Resolver.this c
    = Some (Resolver.mk (Resolver.this c) (-1) (Resolver.peer_info c) true) /\
    (forall r, r <> Resolver.this c ->
               Browser.resolvers (World.browser w') !! r
               = Browser.resolvers (World.browser w) !! r) /\
    Browser.discovered_peers (World.browser w') = Browser.discovered_peers (World.browser w) /\
    World.lookups w'
    = HostLookup.mk (delete id (HostLookup.pending (World.lookups w)))
                    (HostLookup.next_id (World.lookups w)).
Proof.
  intros Herror Hpending Hres. unfold World.lookup_finished.
  rewrite Hpending, Hres. unfold Resolver.hostname_resolved.
  destruct (error host_info); [congruence| |];
    (eexists; split; [reflexivity|]; cbn;
     split; [apply lookup_insert_eq|];
     split; [intros r Hr; now apply lookup_insert_ne | now split]).
Qed.

Lemma lookup_error_ends_the_resolver_only_witness :
  exists w',
    World.lookup_finished 1 (mkHostInfo HostNotFound [] "h3.local" "Host not found")
                          Sample.world
    = Returns w' [QHostInfo_resultsReady 1 11%nat;
                  Message QtWarningMsg "QHostInfo failed for" "h3.local Host not found"] /\
    Browser.resolvers (World.browser w') !! 13%nat = Some Sample.resolving.
Proof.
  destruct (lookup_error_ends_the_resolver_only
              (mkHostInfo HostNotFound [] "h3.local" "Host not found")
              Sample.looking_up Sample.world 1)
    as (w' & Hrun & _ & Hothers & _).
  - discriminate.
  - reflexivity.
  - reflexivity.
  - exists w'. split; [exact Hrun|].
    etrans; [apply Hothers; discriminate | reflexivity].
Defined.

(** X16: once the result of its lookup has been handed to it, with
    addresses or with an error, a Resolver holds no lookup identifier and is
    marked for deletion, and the lookup is not under way any more; so when
    the Resolver is deleted afterwards, nothing is aborted: the lookups of
    the others are left alone. *)
Theorem finished_resolver_aborts_nothing
        (id : Z) (host_info : QHostInfo) (w w' : World.t) (trace : list Effect)
        (r : ObjId) (res : Resolver.t) :
  World.lookup_finished id host_info w = Returns w' trace ->
  HostLookup.pending (World.lookups w) !! id = Some r ->
  Browser.resolvers (World.browser w) !! r = Some res ->
  (exists res',
      Browser.resolvers (World.browser w') !! r = Some res' /\
      Resolver.hostname_lookup_id res' = -1 /\
      Resolver.deleteLater res' = true) /\
  HostLookup.pending (World.lookups w') !! id = None /\
  World.lookups (World.destroy_resolver r w') = World.lookups w' /\
  Browser.resolvers (World.browser (World.destroy_resolver r w')) !! r = None.
Proof.
  unfold World.lookup_finished. intros Hrun Hpending Hres.
  rewrite Hpending, Hres in Hrun.
  destruct (Resolver.hostname_resolved host_info res) as [res' t|t] eqn:Hslot;
    [|discriminate].
  destruct (hostname_resolved_resets _ _ _ _ Hslot) as (Hid & Hmarked & _).
  pose proof (route_resolvers t (Browser.set_resolver r res' (World.browser w))) as Hroute.
  destruct (World.route t _) as [c routed]. cbn in Hroute.
  injection Hrun as <- <-.
  assert (Hthere : Browser.resolvers c !! r = Some res')
    by (rewrite Hroute; apply lookup_insert_eq).
  split; [exists res'; now repeat split|].
  split; [cbn; apply lookup_delete_eq|].
  unfold World.destroy_resolver. cbn [World.browser World.lookups].
  rewrite Hthere. unfold Resolver.destructor. rewrite Hid. cbn.
  split; [reflexivity | apply lookup_delete_eq].
Qed.

Lemma finished_resolver_aborts_nothing_witness :
  exists w' trace,
    World.lookup_finished 1 Sample.one_address Sample.world = Returns w' trace /\
    World.lookups (World.destroy_resolver 11%nat w') = World.lookups w'.
Proof.
  eexists. eexists. split; [vm_compute; reflexivity|].
  eapply (finished_resolver_aborts_nothing 1 Sample.one_address Sample.world _ _
                                           11%nat Sample.looking_up).
  - vm_compute. reflexivity.
  - reflexivity.
  - reflexivity.
Defined.

(** X17: the whole resolution. For a Resolver the Browser owns, a successful
    result of the resolve query followed by a lookup that succeeds with at
    least one address completes the peer exactly once: it has the name the
    Resolver was built for, the hostname of the result, the port in host byte
    order and the first address of the lookup; the Resolver then holds no
    lookup and is marked for deletion. *)
Theorem resolution_completes_the_peer
        (w : World.t) (r : ObjId) (res : Resolver.t) (host : QString)
        (net_port : Resolver.uint16_be) (host_info : QHostInfo)
        (first : QHostAddress) (others : list QHostAddress) :
  Browser.resolvers (World.browser w) !! r = Some res ->
  Resolver.this res = r ->
  error host_info = NoError ->
  addresses host_info = first :: others ->
  exists w' trace,
    World.run [World.Resolve r kDNSServiceErr_NoError host net_port;
               World.LookupFinished (HostLookup.next_id (World.lookups w)) host_info] w
    = Returns w' trace /\
    World.delivered trace = [(HostLookup.next_id (World.lookups w), r)] /\
    World.completed trace
    = [mkPeer (username (Resolver.peer_info res)) host first
              (Resolver.qFromBigEndian net_port)] /\
    Browser.resolvers (World.browser w') !! r
    = Some (Resolver.mk r (-1)
                        (mkPeer (username (Resolver.peer_info res)) host first
                                (Resolver.qFromBigEndian net_port))
                        true).
Proof.
  intros Hres Hthis Herror Haddresses.
  cbn [World.run World.handle]. unfold World.resolver_callback. rewrite Hres.
  unfold Resolver.resolver_callback, HostLookup.lookupHost.
  change (kDNSServiceErr_NoError =? kDNSServiceErr_NoError) with true. cbv iota.
  rewrite Hthis. unfold World.lookup_finished.
  cbn [World.lookups World.browser HostLookup.pending HostLookup.next_id
       Browser.set_resolver Browser.resolvers].
  rewrite !lookup_insert_eq. unfold Resolver.hostname_resolved.
  cbn [Resolver.this Resolver.peer_info Resolver.deleteLater username hostname port address].
  rewrite Herror, Haddresses. cbn [World.route].
  set (peer := mkPeer (username (Resolver.peer_info res)) host first
                      (Resolver.qFromBigEndian net_port)).
  match goal with
  | |- context [Browser.resolved_peer_added peer ?c] =>
      pose proof (proj2 (resolved_peer_added_told peer c)) as Hkept;
      assert (Hslot : World.delivered (snd (Browser.resolved_peer_added peer c)) = [] /\
                      World.completed (snd (Browser.resolved_peer_added peer c)) = [])
        by (unfold Browser.resolved_peer_added;
            destruct (negb _); [destruct (negb _)|]; now split);
      destruct (Browser.resolved_peer_added peer c) as [c' slot]
  end.
  cbn [fst snd] in Hkept, Hslot. destruct Hslot as [Hdelivered Hcompleted].
  eexists. eexists. split; [reflexivity|].
  rewrite !app_nil_r. cbn [app World.delivered World.completed].
  rewrite Hdelivered, Hcompleted.
  split; [reflexivity|]. split; [reflexivity|].
  cbn [World.browser]. rewrite Hkept. cbn. apply lookup_insert_eq.
Qed.

Lemma resolution_completes_the_peer_witness :
  exists w' trace,
    World.run [World.Resolve 13%nat kDNSServiceErr_NoError "h4.local" (16, 147);
               World.LookupFinished 2 Sample.one_address] Sample.world
    = Returns w' trace /\
    World.completed trace = [mkPeer "dave" "h4.local" "192.168.1.10" 4243].
Proof.
  destruct (resolution_completes_the_peer
              Sample.world 13%nat Sample.resolving "h4.local" (16, 147) Sample.one_address
              "192.168.1.10" [])
    as (w' & trace & Hrun & _ & Hcompleted & _); try reflexivity.
  exists w', trace. split; [exact Hrun | exact Hcompleted].
Defined.

(** X18: a name is discovered, seen again, and lost. For a peer that is not
    the Browser itself and not yet discovered, [resolved_peer_added] emits
    [added] once; a second peer of the same username only gets a warning and
    changes nothing; and the peer-disappeared notification for that name
    emits [removed] and gives back the Browser as it was before. *)
Theorem discovered_then_lost (peer again : Peer) (c : Browser.t) :
  username peer <> Browser.instance_username c ->
  username peer ∉ Browser.discovered_peers c ->
  username again = username peer ->
  snd (Browser.resolved_peer_added peer c) = [Browser_added peer] /\
  Browser.resolved_peer_added again (fst (Browser.resolved_peer_added peer c))
  = (fst (Browser.resolved_peer_added peer c),
     [Message QtWarningMsg "Browser: add: peer already exists:" (username peer)]) /\
  Browser.peer_removed (username peer) (fst (Browser.resolved_peer_added peer c))
  = (c, [Browser_removed (username peer)]).
Proof.
  intros Hne Hnew Hagain.
  assert (Hadded : Browser.resolved_peer_added peer c
                   = (Browser.mk (Browser.discovered_peers c ∪ {[username peer]})
                                 (Browser.instance_username c) (Browser.resolvers c),
                      [Browser_added peer])).
  { unfold Browser.resolved_peer_added.
    rewrite (proj2 (String.eqb_neq _ _) Hne). cbn [negb].
    now rewrite (bool_decide_eq_false_2 _ Hnew). }
  rewrite Hadded. cbn [fst snd].
  assert (Hthere : username peer ∈ Browser.discovered_peers c ∪ {[username peer]})
    by (apply elem_of_union; right; now apply elem_of_singleton).
  split; [reflexivity|]. split.
  - unfold Browser.resolved_peer_added.
    cbn [Browser.instance_username Browser.discovered_peers].
    rewrite Hagain, (proj2 (String.eqb_neq _ _) Hne). cbn [negb].
    now rewrite (bool_decide_eq_true_2 _ Hthere).
  - unfold Browser.peer_removed.
    cbn [Browser.instance_username Browser.discovered_peers Browser.resolvers].
    rewrite (proj2 (String.eqb_neq _ _) Hne). cbn [negb].
    rewrite (bool_decide_eq_true_2 _ Hthere).
    f_equal. destruct c as [names self resolvers]. cbn in *. f_equal.
    apply set_eq. intros x.
    rewrite elem_of_difference, elem_of_union, elem_of_singleton. split.
    + intros [[H|H] Hx]; [exact H | contradiction].
    + intros H. split; [now left|]. intros ->. contradiction.
Qed.

Lemma discovered_then_lost_witness :
  Browser.peer_removed
    "carol" (fst (Browser.resolved_peer_added
                    (mkPeer "carol" "h3.local" "192.168.1.10" 4242)
                    (Browser.mk ∅ "alice" ∅)))
  = (Browser.mk ∅ "alice" ∅, [Browser_removed "carol"]).
Proof.
  refine (proj2 (proj2
    (discovered_then_lost (mkPeer "carol" "h3.local" "192.168.1.10" 4242)
                          (mkPeer "carol" "h3.lan" "192.168.1.11" 4242)
                          (Browser.mk ∅ "alice" ∅) _ _ _))).
  - discriminate.
  - apply not_elem_of_empty.
  - reflexivity.
Defined.

End LegacyResolver.

(** ** [compatibility.h] *)

Section CompatibilityFacts.

Import Compatibility.

(** X19: [MakeIndexSequence<N>] is the sequence 0, 1, ..., N-1, what
    [std::make_index_sequence<N>] is; and [IndexSequenceFor] has one index
    for each type, the i-th being i. *)
Theorem make_index_sequence_counts (N : nat) (T : Type) (types : list T) :
  MakeIndexSequence N = seq 0 N /\
  length (MakeIndexSequence N) = N /\
  IndexSequenceFor types = seq 0 (length types) /\
  (forall i, (i < length types)%nat -> IndexSequenceFor types !! i = Some i).
Proof.
  assert (Hseq : forall n, Seq n = seq 0 n).
  { induction n as [|n IH]; [reflexivity|].
    cbn [Seq]. unfold Successor. now rewrite IH, length_seq, seq_S. }
  unfold IndexSequenceFor, MakeIndexSequence. rewrite !Hseq.
  split; [reflexivity|]. split; [apply length_seq|]. split; [reflexivity|].
  intros i Hi. now apply lookup_seq_lt.
Qed.

End CompatibilityFacts.

Section CompatibilityExamples.

Import Compatibility.

Lemma make_index_sequence_counts_witness :
  MakeIndexSequence 3 = [0; 1; 2]%nat /\
  IndexSequenceFor ["a"; "b"; "c"]%string !! 2%nat = Some 2%nat.
Proof.
  destruct (make_index_sequence_counts 3 string ["a"; "b"; "c"]%string)
    as (Hseq & _ & _ & Hith).
  split; [exact Hseq | apply Hith; cbn; lia].
Defined.

End CompatibilityExamples.
